(** * Personal Finance Tracker: the debt amortization engine

    A shallow embedding of the debt part of [Finance.py] (function
    [manage_debts], with the savings forms of [manage_savings] that share
    the [savings] table with it) and the properties of its two
    calculations: the minimum-payment payoff simulation and the
    application of an additional payment.

    Numbers.  The program stores every amount as an SQLite [REAL] and
    computes with Python floats.  The code is embedded twice, line by
    line the same, over two number types.

    - Module [B64] and the facts of [B64Facts]: amounts are binary64
      floats ([PrimFloat.float]), every operation rounded as the program
      rounds it.  What rounding can decide is stated there: the branch
      that a payment takes ([additional_payment > 0],
      [principal_payment < 0]), the months that the loop counts and
      whether it ends ([remaining_balance > 0]), the records of the
      payment log.

    - The definitions at top level and in [Payoff]: amounts are exact
      rationals ([Q]), with the operations in the order the source
      writes them.  They carry the statements about the tables, the
      reachable stores and the savings and overview pages, and about
      debts whose payment does not cover the interest; equalities
      between computed amounts are stated with [==] unless the two sides
      are the same expression. *)

From Stdlib Require Import QArith Qround Qabs Lqa Lia ZArith List String Bool.
From Stdlib Require PrimFloat FloatOps SpecFloat.
From Stdlib.Strings Require Byte.
Import ListNotations.

Open Scope string_scope.
Open Scope list_scope.
Open Scope Q_scope.

(** ** Comparisons of amounts

    Python's [x < y] and [x > y] on numbers, as booleans. *)

Definition Qltb (x y : Q) : bool :=
  match x ?= y with Lt => true | _ => false end.

Definition Qgtb (x y : Q) : bool := Qltb y x.

(** [monthly_interest_rate = (interest_rate / 100) / 12], lines 355 and 381. *)

Definition monthly_interest_rate (interest_rate : Q) : Q :=
  (interest_rate / 100) / 12.

(** ** The minimum-payment payoff simulation (lines 354-370) *)

Module Payoff.

(** The three variables the [while] loop updates. *)

Record loop_state : Type := mkLoop {
  remaining_balance : Q;
  total_interest : Q;
  months : nat
}.

(** The state before the loop: lines 356-358. *)

Definition initial (amount_owed : Q) : loop_state :=
  {| remaining_balance := amount_owed; total_interest := 0; months := 0 |}.

(** One pass through the loop body, lines 361-365. *)

Definition loop_body (rate min_payment : Q) (st : loop_state) : loop_state :=
  let interest := remaining_balance st * rate in
  let principal := min_payment - interest in
  {| remaining_balance := remaining_balance st - principal;
     total_interest := total_interest st + interest;
     months := S (months st) |}.

(** [while remaining_balance > 0: ...].  The fuel bounds the number of
    times the loop test is evaluated; [None] means the fuel ran out with
    the test still true. *)

Fixpoint while_loop (fuel : nat) (rate min_payment : Q) (st : loop_state)
  : option loop_state :=
  match fuel with
  | O => None
  | S fuel' =>
      if Qgtb (remaining_balance st) 0
      then while_loop fuel' rate min_payment (loop_body rate min_payment st)
      else Some st
  end.

(** What the calculator block shows: the two [st.write] lines 367-368, or
    the [st.warning] of line 370. *)

Inductive report : Type :=
  | PaidOff (months : nat) (total_interest : Q)
  | MinPaymentWarning.

(** The whole block, lines 354-370. *)

Definition payoff_calculator (fuel : nat)
  (amount_owed interest_rate min_payment : Q) : option report :=
  if Qgtb min_payment 0 then
    match while_loop fuel (monthly_interest_rate interest_rate) min_payment
                     (initial amount_owed) with
    | Some st => Some (PaidOff (months st) (total_interest st))
    | None => None
    end
  else Some MinPaymentWarning.

(** *** The recurrence in the words of the specification

    "Repeat while remaining_balance > 0: interest = remaining_balance x
    monthly_rate; principal = min_payment - interest; remaining_balance
    -= principal; total_interest += interest; months += 1."  Written as
    sequences indexed by the period. *)

Section Recurrence.
Variables (amount_owed monthly_rate min_payment : Q).

Fixpoint balance_after (k : nat) : Q :=
  match k with
  | O => amount_owed
  | S j => balance_after j - (min_payment - balance_after j * monthly_rate)
  end.

Definition interest_of_period (k : nat) : Q := balance_after k * monthly_rate.

Definition principal_of_period (k : nat) : Q :=
  min_payment - interest_of_period k.

Fixpoint interest_through (k : nat) : Q :=
  match k with
  | O => 0
  | S j => interest_through j + interest_of_period j
  end.

(** The first period, counted from [k], after which the balance is no
    longer positive, looking at [n] periods at most. *)

Fixpoint payoff_period (n k : nat) : option nat :=
  match n with
  | O => None
  | S n' => if Qgtb (balance_after k) 0 then payoff_period n' (S k) else Some k
  end.

Definition recurrence_result (n : nat) : option loop_state :=
  match payoff_period n 0 with
  | Some k => Some (mkLoop (balance_after k) (interest_through k) k)
  | None => None
  end.
End Recurrence.

End Payoff.

(** ** The tables (lines 43-64)

    Rows are kept in insertion order.  The [incomes] and [expenses]
    tables are written by other pages only and never read by the debt
    engine; they are left out. *)

Record Debt : Type := mkDebt {
  debt_id : Z;
  creditor : string;
  amount_owed : Q;
  interest_rate : Q;
  min_payment : Q
}.

(** What SQLite holds in a column: an integer, or a BLOB. *)

Inductive sql_value : Type :=
  | SqlInteger (z : Z)
  | SqlBlob (bytes : list Byte.byte).

(** The eight bytes of a [numpy.int64] in memory, least significant
    first (the byte order of x86-64 and AArch64).  The row
    that [selected_debt_details] is has the id as a [numpy.int64];
    [sqlite3] has no adapter for it and binds it through the buffer
    protocol, as a BLOB. *)

Definition byte_of (z : Z) : Byte.byte :=
  match Byte.of_N (Z.to_N (Z.land z 255)) with
  | Some b => b
  | None => Byte.x00
  end.

Definition int64_le (z : Z) : list Byte.byte :=
  map (fun i => byte_of (Z.shiftr z (8 * Z.of_nat i))) (seq 0 8).

(** The integer that a sequence of bytes holds, least significant first. *)

Fixpoint le_value (bs : list Byte.byte) : Z :=
  match bs with
  | [] => 0%Z
  | b :: bs' => (Z.of_N (Byte.to_N b) + 256 * le_value bs')%Z
  end.

(** The ids that [INTEGER PRIMARY KEY AUTOINCREMENT] gives out: positive
    64-bit signed integers. *)

Definition rowid_in_range (z : Z) : Prop := (1 <= z < 2 ^ 63)%Z.

(** [x = y] in SQL on stored values: an integer and a BLOB are never
    equal. *)

Definition sql_value_eqb (x y : sql_value) : bool :=
  match x, y with
  | SqlInteger a, SqlInteger b => Z.eqb a b
  | SqlBlob a, SqlBlob b =>
      if list_eq_dec Byte.byte_eq_dec a b then true else false
  | _, _ => false
  end.

(** A row of [debt_payments]; [payment_debt_id] is the column [debt_id]
    as stored. *)

Record DebtPayment : Type := mkDebtPayment {
  payment_id : Z;
  payment_debt_id : sql_value;
  payment_amount : Q;
  payment_date : string
}.

(** [initialize_db] inserts one [savings] row when the table is empty and
    nothing else inserts or deletes one, so every statement with
    [WHERE id = (SELECT MIN(id) FROM savings)] addresses that row; the
    table is modelled as it. *)

Record Savings : Type := mkSavings {
  saved_amount : Q;
  goal_amount : Q;
  monthly_savings : Q
}.

Record Store : Type := mkStore {
  debts : list Debt;
  debt_payments : list DebtPayment;
  savings : Savings
}.

(** [INTEGER PRIMARY KEY AUTOINCREMENT]: one more than the largest id in
    use (no row of these tables is ever deleted). *)

Definition next_rowid (ids : list Z) : Z := 1 + fold_right Z.max 0%Z ids.

(** [initialize_db] on a fresh database file. *)

Definition initialize_db : Store :=
  {| debts := []; debt_payments := []; savings := mkSavings 0 0 0 |}.

(** ** Debt creation: the form of lines 308-322 *)

Definition add_debt (creditor : string) (amount interest_rate min_payment : Q)
  (s : Store) : Store :=
  {| debts := debts s ++
       [mkDebt (next_rowid (map debt_id (debts s)))
               creditor amount interest_rate min_payment];
     debt_payments := debt_payments s;
     savings := savings s |}.

(** ** Additional-payment application (lines 338-345 and 374-413) *)

(** [debts_df[debts_df["creditor"] == selected_debt].iloc[0]]: the first
    row with that creditor name. *)

Definition selected_debt_details (s : Store) (selected_debt : string)
  : option Debt :=
  find (fun d => String.eqb (creditor d) selected_debt) (debts s).

(** [UPDATE debts SET amount_owed = ? WHERE creditor = ?] *)

Definition set_amount_owed (new_amount_owed : Q) (d : Debt) : Debt :=
  mkDebt (debt_id d) (creditor d) new_amount_owed
         (interest_rate d) (min_payment d).

Definition update_amount_owed (new_amount_owed : Q) (selected_debt : string)
  (ds : list Debt) : list Debt :=
  map (fun d =>
         if String.eqb (creditor d) selected_debt
         then set_amount_owed new_amount_owed d
         else d) ds.

(** [INSERT INTO debt_payments (debt_id, payment_amount, payment_date)]
    with [selected_debt_details["id"]] bound to the first parameter
    (line 394): a [numpy.int64], stored as its eight bytes. *)

Definition insert_debt_payment (debt : Z) (amount : Q) (date : string)
  (ps : list DebtPayment) : list DebtPayment :=
  ps ++ [mkDebtPayment (next_rowid (map payment_id ps))
                       (SqlBlob (int64_le debt)) amount date].

(** [UPDATE savings SET saved_amount = saved_amount - ?] *)

Definition deduct_from_savings (amount : Q) (sv : Savings) : Savings :=
  mkSavings (saved_amount sv - amount) (goal_amount sv) (monthly_savings sv).

(** What the block reports: [st.success] with the three amounts it
    writes, the [st.error] of line 387, the [st.warning] of line 413.
    [NoDebtSelected] stands for the section not being rendered: the
    select box offers the creditor names of the table only, so no row
    matches exactly when the table is empty. *)

Inductive payment_outcome : Type :=
  | PaymentApplied (interest principal_payment new_amount_owed : Q)
  | InsufficientPayment
  | NonPositivePayment
  | NoDebtSelected.

(** [today] is [datetime.today().strftime("%Y-%m-%d")]. *)

Definition apply_additional_payment (today : string) (s : Store)
  (selected_debt : string) (additional_payment : Q)
  : payment_outcome * Store :=
  match selected_debt_details s selected_debt with
  | None => (NoDebtSelected, s)
  | Some details =>
      if Qgtb additional_payment 0 then
        let interest :=
          amount_owed details * monthly_interest_rate (interest_rate details) in
        let principal_payment := additional_payment - interest in
        if Qltb principal_payment 0 then (InsufficientPayment, s)
        else
          let new_amount_owed := amount_owed details - principal_payment in
          (PaymentApplied interest principal_payment new_amount_owed,
           {| debts := update_amount_owed new_amount_owed selected_debt (debts s);
              debt_payments :=
                insert_debt_payment (debt_id details) additional_payment today
                                    (debt_payments s);
              savings := deduct_from_savings additional_payment (savings s) |})
      else (NonPositivePayment, s)
  end.

(** ** The savings forms (lines 241-286) *)

Definition add_to_savings (savings_amount : Q) (s : Store) : Store :=
  {| debts := debts s; debt_payments := debt_payments s;
     savings := mkSavings (saved_amount (savings s) + savings_amount)
                          (goal_amount (savings s))
                          (monthly_savings (savings s)) |}.

Definition update_goal (new_goal : Q) (s : Store) : Store :=
  {| debts := debts s; debt_payments := debt_payments s;
     savings := mkSavings (saved_amount (savings s)) new_goal
                          (monthly_savings (savings s)) |}.

Definition update_monthly_savings (new_monthly_savings : Q) (s : Store)
  : Store :=
  {| debts := debts s; debt_payments := debt_payments s;
     savings := mkSavings (saved_amount (savings s) + new_monthly_savings)
                          (goal_amount (savings s))
                          (monthly_savings (savings s) + new_monthly_savings) |}.

(** ** One run of the debt page (lines 301-413)

    Streamlit runs the script once per interaction: a run sees either a
    submitted debt form, or a click on "Apply Additional Payment", or
    neither.  A submitted form ends the run at [st.rerun()].  Otherwise
    the calculator block runs for the selected debt before the payment
    block is reached. *)

Inductive debt_page_input : Type :=
  | SubmitDebtForm (creditor : string) (amount interest_rate min_payment : Q)
  | ViewDebt (selected_debt : string)
  | ClickApplyPayment (selected_debt : string) (additional_payment : Q).

Inductive page_output : Type :=
  | DebtAdded
  | NothingToShow
  | Calculated (r : Payoff.report)
  | CalculatedAndPaid (r : Payoff.report) (o : payment_outcome).

(** [None]: the calculator loop did not finish within the fuel. *)

Definition manage_debts (fuel : nat) (today : string) (s : Store)
  (inp : debt_page_input) : option (page_output * Store) :=
  match inp with
  | SubmitDebtForm c a ir mp => Some (DebtAdded, add_debt c a ir mp s)
  | ViewDebt sel =>
      match selected_debt_details s sel with
      | None => Some (NothingToShow, s)
      | Some d =>
          match Payoff.payoff_calculator fuel (amount_owed d) (interest_rate d)
                                         (min_payment d) with
          | None => None
          | Some r => Some (Calculated r, s)
          end
      end
  | ClickApplyPayment sel p =>
      match selected_debt_details s sel with
      | None => Some (NothingToShow, s)
      | Some d =>
          match Payoff.payoff_calculator fuel (amount_owed d) (interest_rate d)
                                         (min_payment d) with
          | None => None
          | Some r =>
              let (o, s') := apply_additional_payment today s sel p in
              Some (CalculatedAndPaid r o, s')
          end
      end
  end.

(** ** The application: [main] dispatching on what the user did

    The overview page only reads the tables, and the income and expense
    pages write tables that are not modelled: they leave the store as it
    is and have no action here. *)

Inductive user_action : Type :=
  | OnDebtPage (inp : debt_page_input)
  | AddToSavings (savings_amount : Q)
  | UpdateGoal (new_goal : Q)
  | UpdateMonthlySavings (new_monthly_savings : Q)
  | ResetDatabase.

Definition main (fuel : nat) (today : string) (s : Store) (a : user_action)
  : option Store :=
  match a with
  | OnDebtPage inp =>
      match manage_debts fuel today s inp with
      | Some (_, s') => Some s'
      | None => None
      end
  | AddToSavings x => Some (add_to_savings x s)
  | UpdateGoal g => Some (update_goal g s)
  | UpdateMonthlySavings m => Some (update_monthly_savings m s)
  | ResetDatabase => Some initialize_db
  end.

(** Every [st.number_input] of the program has [min_value=0.0]. *)

Definition number_inputs_ok (a : user_action) : Prop :=
  match a with
  | OnDebtPage (SubmitDebtForm _ amount ir mp) => 0 <= amount /\ 0 <= ir /\ 0 <= mp
  | OnDebtPage (ViewDebt _) => True
  | OnDebtPage (ClickApplyPayment _ p) => 0 <= p
  | AddToSavings x => 0 <= x
  | UpdateGoal g => 0 <= g
  | UpdateMonthlySavings m => 0 <= m
  | ResetDatabase => True
  end.

(** The stores the program can be in. *)

Inductive reachable : Store -> Prop :=
  | reachable_init : reachable initialize_db
  | reachable_step (s s' : Store) (fuel : nat) (today : string)
      (a : user_action) :
      reachable s -> number_inputs_ok a -> main fuel today s a = Some s' ->
      reachable s'.

(** ** Accepted and refused payments *)

Definition accepted (o : payment_outcome) : bool :=
  match o with PaymentApplied _ _ _ => true | _ => false end.

(** Creditor names pairwise distinct. *)

Definition creditors_unique (s : Store) : Prop := NoDup (map creditor (debts s)).

(** ** Scenarios of the specification

    The stores of the concrete scenarios: one debt each, entered through
    the debt form on a fresh database.  The specification gives
    amount_owed and interest_rate; creditor name and min_payment are
    chosen here. *)

Definition card_500 : Store := add_debt "Card" 500 24 100 initialize_db.

Definition card_1000 : Store := add_debt "Card" 1000 24 100 initialize_db.

(** Two debts entered under one creditor name. *)

Definition two_bank_debts : Store :=
  add_debt "Bank" 100 0 50 (add_debt "Bank" 1000 0 500 initialize_db).

(** ** The other pages

    [SUM(column)] of a table, read with [... or 0]: the sum of the
    column, 0 for an empty table. *)

Definition sql_sum {A : Type} (column : A -> Q) (rows : list A) : Q :=
  fold_right (fun row acc => column row + acc) 0 rows.

(** *** Income and expenses (lines 182-214)

    The category and payment method come from select boxes with fixed
    options. *)






(** The whole database: the two tables above and the tables of [Store]. *)




(** *** The overview (lines 106-140): the six metrics of the page *)


Definition total_debt_payments (s : Store) : Q :=
  sql_sum payment_amount (debt_payments s).


(** *** What the savings page shows (lines 219-238 and 288-298) *)

(** Python's [max(a, b)] and [x <= y]. *)

Definition py_max (a b : Q) : Q := if Qltb a b then b else a.

Definition Qleb (x y : Q) : bool := negb (Qltb y x).

Inductive goal_message : Type :=
  | TimeToGoal (months_to_goal : Q)
  | SetMonthlySavingsWarning
  | SetGoalInfo.

Definition remaining_amount (sv : Savings) : Q :=
  py_max (goal_amount sv - saved_amount sv) 0.

Definition time_to_goal (sv : Savings) : goal_message :=
  if Qgtb (goal_amount sv) 0 && Qgtb (monthly_savings sv) 0 then
    TimeToGoal (remaining_amount sv / monthly_savings sv)
  else if Qgtb (goal_amount sv) 0 && Qleb (monthly_savings sv) 0 then
    SetMonthlySavingsWarning
  else SetGoalInfo.

(** *** The savings table as rows (lines 43-48 and 67-71)

    [initialize_db] runs at every start of the script: the tables are
    created if absent, and a row of zeros is inserted when the savings
    table has none.  The forms address the row whose id is
    [SELECT MIN(id) FROM savings]. *)

Record SavingsRow : Type := mkSavingsRow {
  savings_id : Z;
  savings_values : Savings
}.

Definition ensure_savings_row (rows : list SavingsRow) : list SavingsRow :=
  if Nat.eqb (List.length rows) 0
  then rows ++ [mkSavingsRow (next_rowid (map savings_id rows))
                             (mkSavings 0 0 0)]
  else rows.

(** [SELECT MIN(id) FROM savings]: no value for an empty table. *)

Fixpoint min_id (rows : list SavingsRow) : option Z :=
  match rows with
  | [] => None
  | r :: rest =>
      match min_id rest with
      | None => Some (savings_id r)
      | Some m => Some (Z.min (savings_id r) m)
      end
  end.

(** [UPDATE savings SET ... WHERE id = (SELECT MIN(id) FROM savings)],
    with [change] standing for the assignments. *)

Definition update_where_min_id (change : Savings -> Savings)
  (rows : list SavingsRow) : list SavingsRow :=
  match min_id rows with
  | None => rows
  | Some m =>
      map (fun r => if Z.eqb (savings_id r) m
                    then mkSavingsRow (savings_id r) (change (savings_values r))
                    else r) rows
  end.

(** The row with a given id. *)

Definition savings_row_with (id : Z) (rows : list SavingsRow)
  : option SavingsRow :=
  find (fun r => Z.eqb (savings_id r) id) rows.

(** What the program keeps true of the debts table, the payment log and
    the savings row: rates and minimum payments are not negative; every
    logged payment is positive and holds the bytes of the id of a debt of
    the table; payment
    ids are distinct; and what the savings lack against the monthly
    savings entered is covered by the logged payments. *)

Definition tables_well_formed (s : Store) : Prop :=
  Forall (fun d => 0 <= interest_rate d /\ 0 <= min_payment d) (debts s)
  /\ Forall (fun p => 0 < payment_amount p
                      /\ In (payment_debt_id p)
                            (map (fun d => SqlBlob (int64_le (debt_id d)))
                                 (debts s)))
            (debt_payments s)
  /\ NoDup (map payment_id (debt_payments s))
  /\ monthly_savings (savings s)
     <= saved_amount (savings s) + total_debt_payments s.

(** * The program in binary64

    The same code with the arithmetic it runs on.  Amounts are Python
    and numpy floats: IEEE 754 binary64, every operation rounded to
    nearest, ties to even.  [PrimFloat.float] with its operations is that
    arithmetic.  The definitions below follow the source line by line as
    the ones above do; only the number type differs. *)

(** The exact value of a finite binary64 number. *)

Definition SF2Q (x : SpecFloat.spec_float) : option Q :=
  match x with
  | SpecFloat.S754_zero _ => Some 0
  | SpecFloat.S754_finite s m e =>
      let v := if (0 <=? e)%Z
               then inject_Z (Z.pos m * 2 ^ e)
               else Z.pos m # Z.to_pos (2 ^ (- e)) in
      Some (if s then - v else v)
  | _ => None
  end.

Definition F2Q (x : PrimFloat.float) : option Q := SF2Q (FloatOps.Prim2SF x).

Module B64.
Import PrimFloat.
Local Open Scope float_scope.

(** [monthly_interest_rate = (interest_rate / 100) / 12], lines 355 and 381. *)

Definition monthly_interest_rate (interest_rate : float) : float :=
  (interest_rate / 100) / 12.

(** ** The minimum-payment payoff simulation (lines 354-370) *)

Record loop_state : Type := mkLoop {
  remaining_balance : float;
  total_interest : float;
  months : nat
}.

Definition initial (amount_owed : float) : loop_state :=
  {| remaining_balance := amount_owed; total_interest := 0; months := 0 |}.

Definition loop_body (rate min_payment : float) (st : loop_state) : loop_state :=
  let interest := remaining_balance st * rate in
  let principal := min_payment - interest in
  {| remaining_balance := remaining_balance st - principal;
     total_interest := total_interest st + interest;
     months := S (months st) |}.

(** [while remaining_balance > 0: ...], with fuel for the loop tests. *)

Fixpoint while_loop (fuel : nat) (rate min_payment : float) (st : loop_state)
  : option loop_state :=
  match fuel with
  | O => None
  | S fuel' =>
      if 0 <? remaining_balance st
      then while_loop fuel' rate min_payment (loop_body rate min_payment st)
      else Some st
  end.

Inductive report : Type :=
  | PaidOff (months : nat) (total_interest : float)
  | MinPaymentWarning.

Definition payoff_calculator (fuel : nat)
  (amount_owed interest_rate min_payment : float) : option report :=
  if 0 <? min_payment then
    match while_loop fuel (monthly_interest_rate interest_rate) min_payment
                     (initial amount_owed) with
    | Some st => Some (PaidOff (months st) (total_interest st))
    | None => None
    end
  else Some MinPaymentWarning.

(** The balance and the accumulated interest after [n] passes through
    the loop, each entered on a true test. *)


(** *** The recurrence in the words of the specification, in binary64 *)

Section Recurrence.
Variables (amount_owed monthly_rate min_payment : float).

Fixpoint balance_after (k : nat) : float :=
  match k with
  | O => amount_owed
  | S j => balance_after j - (min_payment - balance_after j * monthly_rate)
  end.

Definition interest_of_period (k : nat) : float :=
  balance_after k * monthly_rate.

Definition principal_of_period (k : nat) : float :=
  min_payment - interest_of_period k.

Fixpoint interest_through (k : nat) : float :=
  match k with
  | O => 0
  | S j => interest_through j + interest_of_period j
  end.

Fixpoint payoff_period (n k : nat) : option nat :=
  match n with
  | O => None
  | S n' => if 0 <? balance_after k then payoff_period n' (S k) else Some k
  end.

Definition recurrence_result (n : nat) : option loop_state :=
  match payoff_period n 0 with
  | Some k => Some (mkLoop (balance_after k) (interest_through k) k)
  | None => None
  end.
End Recurrence.

(** ** The tables (lines 43-64) *)

Record Debt : Type := mkDebt {
  debt_id : Z;
  creditor : string;
  amount_owed : float;
  interest_rate : float;
  min_payment : float
}.

Record DebtPayment : Type := mkDebtPayment {
  payment_id : Z;
  payment_debt_id : sql_value;
  payment_amount : float;
  payment_date : string
}.

Record Savings : Type := mkSavings {
  saved_amount : float;
  goal_amount : float;
  monthly_savings : float
}.

Record Store : Type := mkStore {
  debts : list Debt;
  debt_payments : list DebtPayment;
  savings : Savings
}.

Definition initialize_db : Store :=
  {| debts := []; debt_payments := []; savings := mkSavings 0 0 0 |}.

(** ** Debt creation: the form of lines 308-322 *)

Definition add_debt (creditor : string) (amount interest_rate min_payment : float)
  (s : Store) : Store :=
  {| debts := debts s ++
       [mkDebt (next_rowid (map debt_id (debts s)))
               creditor amount interest_rate min_payment];
     debt_payments := debt_payments s;
     savings := savings s |}.

(** ** Additional-payment application (lines 338-345 and 374-413) *)

Definition selected_debt_details (s : Store) (selected_debt : string)
  : option Debt :=
  find (fun d => String.eqb (creditor d) selected_debt) (debts s).

Definition set_amount_owed (new_amount_owed : float) (d : Debt) : Debt :=
  mkDebt (debt_id d) (creditor d) new_amount_owed
         (interest_rate d) (min_payment d).

(** [UPDATE debts SET amount_owed = ? WHERE creditor = ?] *)

Definition update_amount_owed (new_amount_owed : float) (selected_debt : string)
  (ds : list Debt) : list Debt :=
  map (fun d =>
         if String.eqb (creditor d) selected_debt
         then set_amount_owed new_amount_owed d
         else d) ds.

(** [INSERT INTO debt_payments (debt_id, payment_amount, payment_date)]
    with [selected_debt_details["id"]], a [numpy.int64], for [debt_id]. *)

Definition insert_debt_payment (selected_id : Z) (amount : float) (date : string)
  (ps : list DebtPayment) : list DebtPayment :=
  ps ++ [mkDebtPayment (next_rowid (map payment_id ps))
                       (SqlBlob (int64_le selected_id)) amount date].

Definition deduct_from_savings (amount : float) (sv : Savings) : Savings :=
  mkSavings (saved_amount sv - amount) (goal_amount sv) (monthly_savings sv).

Inductive payment_outcome : Type :=
  | PaymentApplied (interest principal_payment new_amount_owed : float)
  | InsufficientPayment
  | NonPositivePayment
  | NoDebtSelected.

Definition apply_additional_payment (today : string) (s : Store)
  (selected_debt : string) (additional_payment : float)
  : payment_outcome * Store :=
  match selected_debt_details s selected_debt with
  | None => (NoDebtSelected, s)
  | Some details =>
      if 0 <? additional_payment then
        let interest :=
          amount_owed details * monthly_interest_rate (interest_rate details) in
        let principal_payment := additional_payment - interest in
        if principal_payment <? 0 then (InsufficientPayment, s)
        else
          let new_amount_owed := amount_owed details - principal_payment in
          (PaymentApplied interest principal_payment new_amount_owed,
           {| debts := update_amount_owed new_amount_owed selected_debt (debts s);
              debt_payments :=
                insert_debt_payment (debt_id details) additional_payment today
                                    (debt_payments s);
              savings := deduct_from_savings additional_payment (savings s) |})
      else (NonPositivePayment, s)
  end.

(** ** The savings forms (lines 241-286) *)

Definition add_to_savings (savings_amount : float) (s : Store) : Store :=
  {| debts := debts s; debt_payments := debt_payments s;
     savings := mkSavings (saved_amount (savings s) + savings_amount)
                          (goal_amount (savings s))
                          (monthly_savings (savings s)) |}.

Definition update_goal (new_goal : float) (s : Store) : Store :=
  {| debts := debts s; debt_payments := debt_payments s;
     savings := mkSavings (saved_amount (savings s)) new_goal
                          (monthly_savings (savings s)) |}.

Definition update_monthly_savings (new_monthly_savings : float) (s : Store)
  : Store :=
  {| debts := debts s; debt_payments := debt_payments s;
     savings := mkSavings (saved_amount (savings s) + new_monthly_savings)
                          (goal_amount (savings s))
                          (monthly_savings (savings s) + new_monthly_savings) |}.

(** ** One run of the debt page (lines 301-413) *)

Inductive debt_page_input : Type :=
  | SubmitDebtForm (creditor : string) (amount interest_rate min_payment : float)
  | ViewDebt (selected_debt : string)
  | ClickApplyPayment (selected_debt : string) (additional_payment : float).

Inductive page_output : Type :=
  | DebtAdded
  | NothingToShow
  | Calculated (r : report)
  | CalculatedAndPaid (r : report) (o : payment_outcome).

Definition manage_debts (fuel : nat) (today : string) (s : Store)
  (inp : debt_page_input) : option (page_output * Store) :=
  match inp with
  | SubmitDebtForm c a ir mp => Some (DebtAdded, add_debt c a ir mp s)
  | ViewDebt sel =>
      match selected_debt_details s sel with
      | None => Some (NothingToShow, s)
      | Some d =>
          match payoff_calculator fuel (amount_owed d) (interest_rate d)
                                  (min_payment d) with
          | None => None
          | Some r => Some (Calculated r, s)
          end
      end
  | ClickApplyPayment sel p =>
      match selected_debt_details s sel with
      | None => Some (NothingToShow, s)
      | Some d =>
          match payoff_calculator fuel (amount_owed d) (interest_rate d)
                                  (min_payment d) with
          | None => None
          | Some r =>
              let (o, s') := apply_additional_payment today s sel p in
              Some (CalculatedAndPaid r o, s')
          end
      end
  end.

(** ** The application *)

Inductive user_action : Type :=
  | OnDebtPage (inp : debt_page_input)
  | AddToSavings (savings_amount : float)
  | UpdateGoal (new_goal : float)
  | UpdateMonthlySavings (new_monthly_savings : float)
  | ResetDatabase.

Definition main (fuel : nat) (today : string) (s : Store) (a : user_action)
  : option Store :=
  match a with
  | OnDebtPage inp =>
      match manage_debts fuel today s inp with
      | Some (_, s') => Some s'
      | None => None
      end
  | AddToSavings x => Some (add_to_savings x s)
  | UpdateGoal g => Some (update_goal g s)
  | UpdateMonthlySavings m => Some (update_monthly_savings m s)
  | ResetDatabase => Some initialize_db
  end.

(** Every [st.number_input] of the program has [min_value=0.0]. *)

Definition number_inputs_ok (a : user_action) : Prop :=
  match a with
  | OnDebtPage (SubmitDebtForm _ amount ir mp) =>
      (0 <=? amount) = true /\ (0 <=? ir) = true /\ (0 <=? mp) = true
  | OnDebtPage (ViewDebt _) => True
  | OnDebtPage (ClickApplyPayment _ p) => (0 <=? p) = true
  | AddToSavings x => (0 <=? x) = true
  | UpdateGoal g => (0 <=? g) = true
  | UpdateMonthlySavings m => (0 <=? m) = true
  | ResetDatabase => True
  end.

Inductive reachable : Store -> Prop :=
  | reachable_init : reachable initialize_db
  | reachable_step (s s' : Store) (fuel : nat) (today : string)
      (a : user_action) :
      reachable s -> number_inputs_ok a -> main fuel today s a = Some s' ->
      reachable s'.

(** ** Sequences of payment attempts and the payment log *)

Record payment_request : Type := mkRequest {
  req_creditor : string;
  req_amount : float;
  req_date : string
}.

Definition attempt (s : Store) (r : payment_request) : payment_outcome * Store :=
  apply_additional_payment (req_date r) s (req_creditor r) (req_amount r).

Fixpoint apply_payments (s : Store) (rs : list payment_request) : Store :=
  match rs with
  | [] => s
  | r :: rs' => apply_payments (snd (attempt s r)) rs'
  end.

Definition accepted (o : payment_outcome) : bool :=
  match o with PaymentApplied _ _ _ => true | _ => false end.

(** The gross amounts that a sequence of requests pays: the amount of
    each request that is accepted, in order. *)

Fixpoint gross_amounts_paid (s : Store) (rs : list payment_request)
  : list float :=
  match rs with
  | [] => []
  | r :: rs' =>
      (if accepted (fst (attempt s r)) then [req_amount r] else [])
      ++ gross_amounts_paid (snd (attempt s r)) rs'
  end.

(** The same for the requests whose selected row is the debt with id
    [debt]. *)

Definition on_debt (debt : Z) (s : Store) (r : payment_request) : bool :=
  match selected_debt_details s (req_creditor r) with
  | Some d => Z.eqb (debt_id d) debt
  | None => false
  end.

Fixpoint gross_amounts_paid_on (debt : Z) (s : Store)
  (rs : list payment_request) : list float :=
  match rs with
  | [] => []
  | r :: rs' =>
      (if accepted (fst (attempt s r)) && on_debt debt s r
       then [req_amount r] else [])
      ++ gross_amounts_paid_on debt (snd (attempt s r)) rs'
  end.

(** [SELECT payment_amount FROM debt_payments], and the same with
    [WHERE debt_id = v], in the order of the rows. *)

Definition recorded_amounts (ps : list DebtPayment) : list float :=
  map payment_amount ps.

Definition recorded_amounts_where (v : sql_value) (ps : list DebtPayment)
  : list float :=
  map payment_amount
      (filter (fun p => sql_value_eqb (payment_debt_id p) v) ps).

Definition creditors_unique (s : Store) : Prop := NoDup (map creditor (debts s)).

(** ** Scenarios *)

Definition card_500 : Store := add_debt "Card" 500 24 100 initialize_db.

Definition card_1000 : Store := add_debt "Card" 1000 24 100 initialize_db.

(** A debt whose minimum payment is below the interest of a month. *)


Definition two_bank_debts : Store :=
  add_debt "Bank" 100 0 50 (add_debt "Bank" 1000 0 500 initialize_db).

End B64.

(** * Facts *)

(** Goals that are conjunctions of closed computations. *)


(** ** Comparisons and the monthly rate *)

Lemma Qltb_lt (x y : Q) : Qltb x y = true <-> x < y.
Proof.
  unfold Qltb. rewrite Qlt_alt. destruct (x ?= y); split; congruence.
Qed.

Lemma Qltb_ge (x y : Q) : Qltb x y = false <-> y <= x.
Proof.
  split; intro H.
  - apply Qnot_lt_le. intro L. apply Qltb_lt in L. congruence.
  - destruct (Qltb x y) eqn:E; trivial.
    apply Qltb_lt in E. exfalso. exact (Qlt_not_le _ _ E H).
Qed.

Lemma Qgtb_gt (x y : Q) : Qgtb x y = true <-> y < x.
Proof. apply Qltb_lt. Qed.

Lemma Qgtb_le (x y : Q) : Qgtb x y = false <-> x <= y.
Proof. apply Qltb_ge. Qed.

Lemma monthly_interest_rate_scale (ir : Q) :
  monthly_interest_rate ir == ir * (1 # 1200).
Proof. unfold monthly_interest_rate. field. Qed.

Lemma monthly_interest_rate_nonneg (ir : Q) :
  0 <= ir -> 0 <= monthly_interest_rate ir.
Proof.
  intro H. rewrite monthly_interest_rate_scale.
  apply Qmult_le_0_compat; [exact H | discriminate].
Qed.

(** ** The payoff loop *)

Section LoopFacts.
Variables (rate min_payment : Q).

Let body := Payoff.loop_body rate min_payment.

Lemma while_loop_unfold (fuel : nat) (st : Payoff.loop_state) :
  Payoff.while_loop (S fuel) rate min_payment st =
  if Qgtb (Payoff.remaining_balance st) 0
  then Payoff.while_loop fuel rate min_payment (body st)
  else Some st.
Proof. reflexivity. Qed.

(** No progress: when the payment does not exceed the interest on
    [b0 > 0], the loop started at or above [b0] never stops. *)

Lemma while_loop_stuck (b0 : Q) :
  0 < b0 -> 0 <= rate -> min_payment <= b0 * rate ->
  forall (fuel : nat) (st : Payoff.loop_state),
    b0 <= Payoff.remaining_balance st ->
    Payoff.while_loop fuel rate min_payment st = None.
Proof.
  intros Hb0 Hr Hmp. induction fuel as [|n IH]; intros st Hb; [reflexivity|].
  rewrite while_loop_unfold.
  assert (Hpos : 0 < Payoff.remaining_balance st)
    by (eapply Qlt_le_trans; eassumption).
  rewrite (proj2 (Qgtb_gt _ _) Hpos).
  apply IH. cbn.
  assert (Hbr : b0 * rate <= Payoff.remaining_balance st * rate)
    by (apply Qmult_le_compat_r; assumption).
  lra.
Qed.
End LoopFacts.

(** ** The loop against the recurrence of the specification *)

Section RecurrenceFacts.
Variables (amount_owed rate min_payment : Q).

Let bal := Payoff.balance_after amount_owed rate min_payment.
Let acc := Payoff.interest_through amount_owed rate min_payment.
Let first := Payoff.payoff_period amount_owed rate min_payment.

(** Started in the state of period [k], the loop stops where the
    recurrence first meets a balance that is not positive. *)

Lemma while_loop_from_period (fuel k : nat) :
  Payoff.while_loop fuel rate min_payment (Payoff.mkLoop (bal k) (acc k) k) =
  match first fuel k with
  | Some j => Some (Payoff.mkLoop (bal j) (acc j) j)
  | None => None
  end.
Proof.
  revert k. induction fuel as [|n IH]; intro k; [reflexivity|].
  rewrite while_loop_unfold. cbn [Payoff.remaining_balance].
  subst first. cbn [Payoff.payoff_period]. fold bal.
  destruct (Qgtb (bal k) 0); [|reflexivity].
  exact (IH (S k)).
Qed.

(** [payoff_period] finds the least period with a balance [<= 0]. *)

Lemma payoff_period_sound (n k j : nat) :
  first n k = Some j ->
  (k <= j < k + n)%nat /\ bal j <= 0
  /\ forall i, (k <= i < j)%nat -> 0 < bal i.
Proof.
  revert k. induction n as [|n IH]; intros k H; [discriminate|].
  subst first. cbn [Payoff.payoff_period] in H. fold bal in H.
  destruct (Qgtb (bal k) 0) eqn:E.
  - destruct (IH _ H) as (Hr & Hj & Hlt).
    repeat split; try lia; [exact Hj|].
    intros i Hi. destruct (Nat.eq_dec i k) as [->|Hne].
    + now apply Qgtb_gt.
    + apply Hlt. lia.
  - injection H as <-. repeat split; try lia.
    now apply Qgtb_le.
Qed.

Lemma payoff_period_complete (n k j : nat) :
  (k <= j < k + n)%nat -> bal j <= 0 ->
  (forall i, (k <= i < j)%nat -> 0 < bal i) ->
  first n k = Some j.
Proof.
  revert k. induction n as [|n IH]; intros k Hr Hj Hlt; [lia|].
  subst first. cbn [Payoff.payoff_period]. fold bal.
  destruct (Nat.eq_dec k j) as [->|Hne].
  - now rewrite (proj2 (Qgtb_le _ _) Hj).
  - rewrite (proj2 (Qgtb_gt _ _) (Hlt k ltac:(lia))).
    apply IH; [lia | exact Hj |]. intros i Hi. apply Hlt. lia.
Qed.
(** In plain terms: the loop ends in [st] exactly when [months st] is the
first period of the recurrence with a balance [<= 0], the fuel covers
it, and [st] holds the balance and the accumulated interest of that
period. *)

Lemma while_loop_result_iff (fuel : nat) (st : Payoff.loop_state) :
  Payoff.while_loop fuel rate min_payment (Payoff.initial amount_owed) = Some st
  <-> (Payoff.months st < fuel)%nat
      /\ bal (Payoff.months st) <= 0
      /\ (forall i, (i < Payoff.months st)%nat -> 0 < bal i)
      /\ st = Payoff.mkLoop (bal (Payoff.months st)) (acc (Payoff.months st))
                            (Payoff.months st).
Proof.
  change (Payoff.initial amount_owed) with (Payoff.mkLoop (bal 0) (acc 0) 0).
  rewrite while_loop_from_period. split.
  - destruct (first fuel 0) as [j|] eqn:E; [|discriminate].
    intros [= <-]. cbn [Payoff.months].
    destruct (payoff_period_sound fuel 0 j E) as (Hr & Hj & Hlt).
    split; [lia|]. split; [exact Hj|]. split; [|reflexivity].
    intros i Hi. apply Hlt. lia.
  - intros (Hr & Hj & Hlt & Hst).
    rewrite (payoff_period_complete fuel 0 (Payoff.months st)).
    + now rewrite Hst at 4.
    + lia.
    + exact Hj.
    + intros i Hi. apply Hlt. lia.
Qed.
End RecurrenceFacts.

(** The calculator on a payment that does not exceed the first interest. *)

Lemma payoff_calculator_stuck (amount_owed interest_rate min_payment : Q) :
  0 < amount_owed -> 0 < min_payment ->
  min_payment <= amount_owed * monthly_interest_rate interest_rate ->
  forall fuel : nat,
    Payoff.payoff_calculator fuel amount_owed interest_rate min_payment = None.
Proof.
  intros Ha Hpos Hmp fuel.
  set (r := monthly_interest_rate interest_rate) in *.
  assert (Hr : 0 <= r).
  { destruct (Qlt_le_dec r 0) as [Hneg|Hge]; [exfalso | exact Hge].
    assert (H : 0 <= amount_owed * - r)
      by (apply Qmult_le_0_compat; lra).
    lra. }
  unfold Payoff.payoff_calculator.
  rewrite (proj2 (Qgtb_gt _ _) Hpos). fold r.
  rewrite (while_loop_stuck r min_payment amount_owed Ha Hr Hmp fuel
             (Payoff.initial amount_owed) (Qle_refl _)).
  reflexivity.
Qed.

(** A page run with such a debt selected never gets past the calculator
    block: not to the report, and not to the payment block below it. *)

Lemma manage_debts_stuck (s : Store) (sel : string) (d : Debt) :
  selected_debt_details s sel = Some d ->
  0 < amount_owed d -> 0 < min_payment d ->
  min_payment d <= amount_owed d * monthly_interest_rate (interest_rate d) ->
  forall (fuel : nat) (today : string) (P : Q),
    manage_debts fuel today s (ViewDebt sel) = None
    /\ manage_debts fuel today s (ClickApplyPayment sel P) = None.
Proof.
  intros Hd Ha Hpos Hmp fuel today P. cbn. rewrite Hd.
  now rewrite (payoff_calculator_stuck _ _ _ Ha Hpos Hmp fuel).
Qed.

(** C3 (what the code does instead).  Take amount_owed > 0 and
    min_payment <= amount_owed * (interest_rate/100/12).  When
    min_payment > 0 the loop of lines 360-365 never stops: whatever the
    number of loop tests allowed, the calculator has produced no report.
    When min_payment <= 0 the loop is not entered and the warning of line
    370 is shown.  In neither case is the lack of progress detected and
    reported.  The run for amount_owed = 1000, interest_rate = 24,
    min_payment = 15 yields nothing for any bound. *)



(** ** The debts table under a payment *)

Lemma selected_debt_details_some (s : Store) (sel : string) (d : Debt) :
  selected_debt_details s sel = Some d ->
  In d (debts s) /\ creditor d = sel.
Proof.
  intro H. apply find_some in H. destruct H as [Hin Heq].
  split; [exact Hin | now apply String.eqb_eq].
Qed.


Lemma update_amount_owed_ids (n : Q) (sel : string) (ds : list Debt) :
  map debt_id (update_amount_owed n sel ds) = map debt_id ds.
Proof.
  unfold update_amount_owed. rewrite map_map. apply map_ext.
  intro d. now destruct (String.eqb (creditor d) sel).
Qed.

Lemma update_amount_owed_id_bytes (n : Q) (sel : string) (ds : list Debt) :
  map (fun d => SqlBlob (int64_le (debt_id d))) (update_amount_owed n sel ds)
  = map (fun d => SqlBlob (int64_le (debt_id d))) ds.
Proof.
  unfold update_amount_owed. rewrite map_map. apply map_ext.
  intro d. now destruct (String.eqb (creditor d) sel).
Qed.

(** With distinct creditor names the first row of a name is its only row. *)


Lemma update_amount_owed_one_row (n : Q) (sel : string) (ds : list Debt)
  (d0 : Debt) :
  NoDup (map creditor ds) ->
  find (fun x => String.eqb (creditor x) sel) ds = Some d0 ->
  exists l1 l2,
    ds = l1 ++ d0 :: l2
    /\ update_amount_owed n sel ds = l1 ++ set_amount_owed n d0 :: l2.
Proof.
  induction ds as [|x ds IH]; intros Hnd Hf; [discriminate|].
  cbn in Hnd, Hf. inversion Hnd as [|? ? Hnot Hnd']; subst.
  destruct (String.eqb (creditor x) sel) eqn:E.
  - injection Hf as <-. exists [], ds. split; [reflexivity|].
    cbn. rewrite E. f_equal.
    apply String.eqb_eq in E.
    unfold update_amount_owed. rewrite <- (map_id ds) at 2.
    apply map_ext_in. intros y Hy.
    destruct (String.eqb (creditor y) sel) eqn:Ey; [|reflexivity].
    exfalso. apply Hnot. apply String.eqb_eq in Ey.
    rewrite E, <- Ey. now apply in_map.
  - destruct (IH Hnd' Hf) as (l1 & l2 & -> & Hu).
    exists (x :: l1), l2. split; [reflexivity|].
    cbn. rewrite E. f_equal. exact Hu.
Qed.

(** ** The payment block, case by case *)

Lemma apply_additional_payment_applied (today : string) (s s' : Store)
  (sel : string) (p i pp n : Q) :
  apply_additional_payment today s sel p = (PaymentApplied i pp n, s') ->
  exists d,
    selected_debt_details s sel = Some d
    /\ 0 < p
    /\ i = amount_owed d * monthly_interest_rate (interest_rate d)
    /\ pp = p - i
    /\ 0 <= pp
    /\ n = amount_owed d - pp
    /\ s' = {| debts := update_amount_owed n sel (debts s);
               debt_payments :=
                 insert_debt_payment (debt_id d) p today (debt_payments s);
               savings := deduct_from_savings p (savings s) |}.
Proof.
  unfold apply_additional_payment.
  destruct (selected_debt_details s sel) as [d|]; [|discriminate].
  destruct (Qgtb p 0) eqn:Ep; [|discriminate]. cbv zeta.
  destruct (Qltb _ 0) eqn:El; [discriminate|].
  intro H. injection H as <- <- <- <-.
  exists d. apply Qgtb_gt in Ep. apply Qltb_ge in El.
  repeat split; trivial.
Qed.

Lemma apply_additional_payment_refused (today : string) (s : Store)
  (sel : string) (p : Q) :
  accepted (fst (apply_additional_payment today s sel p)) = false ->
  snd (apply_additional_payment today s sel p) = s.
Proof.
  unfold apply_additional_payment.
  destruct (selected_debt_details s sel) as [d|]; [|reflexivity].
  destruct (Qgtb p 0); [|reflexivity]. cbv zeta.
  destruct (Qltb _ 0); [reflexivity | discriminate].
Qed.

(** C2 as stated fails at P = B*r.  On the debt of 1000 at 24% the
    interest is 20; a payment of 20 is not refused: it is applied with
    principal 0, leaves the balance at 1000, and still adds a record of
    20 to the payment log and takes 20 from the savings. *)


(** C7, amended.  Payment application never raises the balance of the
    debt it reads.  For every store, selected creditor and payment: the row
    selected afterwards is the same debt and owes no more than before;
    when the payment is applied the principal part is >= 0 and the new
    amount is the old one minus it.  Where creditor names are pairwise
    distinct this holds row by row for the whole table. *)



(** ** Reachable stores *)

Lemma apply_additional_payment_savings (today : string) (s : Store)
  (sel : string) (P : Q) :
  let s' := snd (apply_additional_payment today s sel P) in
  goal_amount (savings s') = goal_amount (savings s)
  /\ monthly_savings (savings s') = monthly_savings (savings s).
Proof.
  unfold apply_additional_payment.
  destruct (selected_debt_details s sel) as [d|]; [|now split].
  destruct (Qgtb P 0); [|now split]. cbv zeta.
  destruct (Qltb _ 0); now split.
Qed.

Lemma apply_additional_payment_ids (today : string) (s : Store)
  (sel : string) (P : Q) :
  map debt_id (debts (snd (apply_additional_payment today s sel P)))
  = map debt_id (debts s).
Proof.
  unfold apply_additional_payment.
  destruct (selected_debt_details s sel) as [d|]; [|reflexivity].
  destruct (Qgtb P 0); [|reflexivity]. cbv zeta.
  destruct (Qltb _ 0); [reflexivity|].
  cbn [snd debts]. apply update_amount_owed_ids.
Qed.

(** What a run of the debt page can do to the store. *)

Lemma manage_debts_store (fuel : nat) (today : string) (s s' : Store)
  (inp : debt_page_input) (out : page_output) :
  manage_debts fuel today s inp = Some (out, s') ->
  match inp with
  | SubmitDebtForm c a ir mp => s' = add_debt c a ir mp s
  | ViewDebt _ => s' = s
  | ClickApplyPayment sel P =>
      s' = snd (apply_additional_payment today s sel P)
  end.
Proof.
  destruct inp as [c a ir mp | sel | sel P]; cbn.
  - now intros [= _ <-].
  - destruct (selected_debt_details s sel) as [d|]; [|now intros [= _ <-]].
    destruct (Payoff.payoff_calculator _ _ _ _); [|discriminate].
    now intros [= _ <-].
  - destruct (selected_debt_details s sel) as [d|] eqn:Hd.
    + destruct (Payoff.payoff_calculator _ _ _ _); [|discriminate].
      destruct (apply_additional_payment today s sel P) as [o s0].
      now intros [= _ <-].
    + intros [= _ <-]. unfold apply_additional_payment. now rewrite Hd.
Qed.

Lemma rowid_le_max (ids : list Z) (x : Z) :
  In x ids -> (x <= fold_right Z.max 0%Z ids)%Z.
Proof.
  induction ids as [|y ids IH]; cbn; [contradiction|].
  intros [->|Hin]; [lia|]. specialize (IH Hin). lia.
Qed.

Lemma next_rowid_fresh (ids : list Z) : ~ In (next_rowid ids) ids.
Proof.
  intro Hin. apply rowid_le_max in Hin. unfold next_rowid in Hin. lia.
Qed.

Lemma NoDup_snoc {A : Type} (l : list A) (x : A) :
  NoDup (l ++ [x]) <-> NoDup l /\ ~ In x l.
Proof.
  split.
  - intro H. apply NoDup_remove in H. now rewrite app_nil_r in H.
  - intros [Hl Hx]. apply NoDup_app; [exact Hl | repeat constructor; auto |].
    intros a Ha [<-|[]]. contradiction.
Qed.

Lemma reachable_invariants (s : Store) :
  reachable s ->
  0 <= goal_amount (savings s)
  /\ 0 <= monthly_savings (savings s)
  /\ NoDup (map debt_id (debts s)).
Proof.
  induction 1 as [|s s' fuel today a Hs (Hg & Hm & Hid) Hok Hrun].
  - cbn. repeat split; try apply Qle_refl. constructor.
  - destruct a as [inp | x | g | m |]; cbn in Hrun.
    + destruct (manage_debts fuel today s inp) as [[out s0]|] eqn:E;
        [|discriminate].
      injection Hrun as <-. apply manage_debts_store in E.
      destruct inp as [c a ir mp | sel | sel P]; subst s0.
      * cbn. repeat split; trivial.
        rewrite map_app. cbn. apply NoDup_snoc.
        split; [exact Hid | apply next_rowid_fresh].
      * now repeat split.
      * destruct (apply_additional_payment_savings today s sel P) as [-> ->].
        rewrite apply_additional_payment_ids. now repeat split.
    + injection Hrun as <-. now repeat split.
    + injection Hrun as <-. cbn in *. now repeat split.
    + injection Hrun as <-. cbn in *. repeat split; trivial. lra.
    + injection Hrun as <-. cbn. repeat split; try apply Qle_refl. constructor.
Qed.

Lemma card_500_reachable : reachable card_500.
Proof.
  apply (reachable_step initialize_db card_500 0 "2026-01-15"
           (OnDebtPage (SubmitDebtForm "Card" 500 24 100)) reachable_init).
  - repeat split; discriminate.
  - reflexivity.
Qed.

Lemma two_bank_debts_reachable : reachable two_bank_debts.
Proof.
  apply (reachable_step (add_debt "Bank" 1000 0 500 initialize_db)
           two_bank_debts 0 "2026-01-15"
           (OnDebtPage (SubmitDebtForm "Bank" 100 0 50))).
  - apply (reachable_step initialize_db _ 0 "2026-01-15"
             (OnDebtPage (SubmitDebtForm "Bank" 1000 0 500)) reachable_init).
    + repeat split; discriminate.
    + reflexivity.
  - repeat split; discriminate.
  - reflexivity.
Qed.

(** C8 as stated fails.  The store with the debt of 500 at 24% and empty
    savings is reachable and has saved_amount = 0; the page run that
    applies a payment of 50 there leads to a reachable store with
    saved_amount = -50. *)

Lemma payment_overdraws_savings :
  let s' := snd (apply_additional_payment "2026-01-15" card_500 "Card" 50) in
  reachable card_500
  /\ 0 <= saved_amount (savings card_500)
  /\ main 8 "2026-01-15" card_500 (OnDebtPage (ClickApplyPayment "Card" 50))
     = Some s'
  /\ reachable s'
  /\ saved_amount (savings s') == (-50 # 1)
  /\ ~ 0 <= saved_amount (savings s').
Proof.
  intro s'.
  assert (Hrun : main 8 "2026-01-15" card_500
                   (OnDebtPage (ClickApplyPayment "Card" 50)) = Some s')
    by (vm_compute; reflexivity).
  split; [exact card_500_reachable|]. split; [discriminate|].
  split; [exact Hrun|]. split.
  - apply (reachable_step card_500 s' 8 "2026-01-15"
             (OnDebtPage (ClickApplyPayment "Card" 50)) card_500_reachable);
      [discriminate | exact Hrun].
  - split; [vm_compute; reflexivity|]. vm_compute. intro H. now apply H.
Qed.

(** C8, amended.  In every reachable store goal_amount and
    monthly_savings are non-negative.  An applied payment P takes exactly
    P from saved_amount, with no test against the amount saved: the
    result is non-negative exactly when P <= saved_amount.  Every action
    keeps saved_amount non-negative, except a payment larger than the
    amount saved. *)

Theorem savings_fields_under_payment :
  (forall s : Store,
      reachable s ->
      0 <= goal_amount (savings s) /\ 0 <= monthly_savings (savings s))
  /\ (forall (today : string) (s s' : Store) (sel : string) (P i pp n : Q),
        apply_additional_payment today s sel P = (PaymentApplied i pp n, s') ->
        saved_amount (savings s') = saved_amount (savings s) - P
        /\ (0 <= saved_amount (savings s') <-> P <= saved_amount (savings s)))
  /\ (forall (fuel : nat) (today : string) (s s' : Store) (a : user_action),
        number_inputs_ok a ->
        main fuel today s a = Some s' ->
        0 <= saved_amount (savings s) ->
        (forall sel P, a = OnDebtPage (ClickApplyPayment sel P) ->
                       P <= saved_amount (savings s)) ->
        0 <= saved_amount (savings s')).
Proof.
  split; [|split].
  - intros s Hs. destruct (reachable_invariants s Hs) as (Hg & Hm & _).
    now split.
  - intros today s s' sel P i pp n E.
    destruct (apply_additional_payment_applied _ _ _ _ _ _ _ _ E)
      as (d & _ & _ & _ & _ & _ & _ & Hs).
    rewrite Hs. cbn. split; [reflexivity|]. split; intro H; lra.
  - intros fuel today s s' a Hok Hrun Hsaved Hpay.
    destruct a as [inp | x | g | m |]; cbn in Hrun, Hok.
    + destruct (manage_debts fuel today s inp) as [[out s0]|] eqn:E;
        [|discriminate].
      injection Hrun as <-. apply manage_debts_store in E.
      destruct inp as [c a ir mp | sel | sel P]; subst s0;
        [exact Hsaved | exact Hsaved |].
      specialize (Hpay sel P eq_refl).
      destruct (apply_additional_payment today s sel P) as [o s1] eqn:Ea.
      cbn [snd]. destruct (accepted o) eqn:Eo.
      * destruct o as [i pp n| | |]; try discriminate.
        destruct (apply_additional_payment_applied _ _ _ _ _ _ _ _ Ea)
          as (d & _ & _ & _ & _ & _ & _ & Hs).
        rewrite Hs. cbn. lra.
      * pose proof (apply_additional_payment_refused today s sel P) as Hr.
        rewrite Ea in Hr. cbn in Hr. now rewrite (Hr Eo).
    + injection Hrun as <-. cbn. lra.
    + injection Hrun as <-. exact Hsaved.
    + injection Hrun as <-. cbn. lra.
    + injection Hrun as <-. cbn. apply Qle_refl.
Qed.

Lemma savings_fields_under_payment_witness :
  reachable card_500
  /\ 0 <= goal_amount (savings card_500)
  /\ 0 <= monthly_savings (savings card_500).
Proof.
  split; [exact card_500_reachable|].
  exact (proj1 savings_fields_under_payment card_500 card_500_reachable).
Defined.

(** C10 as stated fails.  Entering two debts under the creditor name
    "Bank" gives a reachable store with two rows of that name, and a
    payment of 10 on "Bank" rewrites the balance of both rows (1000 and
    100 before, 990 and 990 after). *)

Lemma duplicate_creditor_accepted :
  reachable two_bank_debts
  /\ map creditor (debts two_bank_debts) = ["Bank"; "Bank"]
  /\ ~ creditors_unique two_bank_debts
  /\ map amount_owed (debts two_bank_debts) = [1000; 100]
  /\ Forall2 Qeq
       (map amount_owed
          (debts (snd (apply_additional_payment "2026-01-15" two_bank_debts
                         "Bank" 10))))
       [990; 990].
Proof.
  split; [|split; [reflexivity | split; [|split; [reflexivity|]]]].
  - exact two_bank_debts_reachable.
  - unfold creditors_unique. cbn. intro H.
    inversion H as [|x l Hnot _]; subst. apply Hnot. now left.
  - vm_compute. repeat constructor.
Qed.

(** C7 as stated fails for a debt that shares its creditor name.  In
    the reachable store with two debts named "Bank", owing 1000 (id 1)
    and 100 (id 2), a payment of 10 is applied: interest 0, principal
    10 >= 0, new balance 990 for the debt it reads.  The update goes by
    creditor name and writes 990 into the row with id 2 as well: that
    debt owed 100 and owes 990 afterwards. *)


(** C10, amended.  The creditor name is not kept unique; the row id is.
    In every reachable store the debt ids are pairwise distinct, and
    debt creation adds one row under a fresh id whatever the creditor
    name, so creditor names stay pairwise distinct exactly when the new
    name is not in the table yet.  In a store whose creditor names are
    pairwise distinct, an applied payment rewrites exactly one debt row,
    the selected one. *)

Theorem debt_rows_and_creditor_names :
  (forall s : Store, reachable s -> NoDup (map debt_id (debts s)))
  /\ (forall (c : string) (a ir mp : Q) (s : Store),
        (exists d, debts (add_debt c a ir mp s) = debts s ++ [d]
                   /\ creditor d = c
                   /\ ~ In (debt_id d) (map debt_id (debts s)))
        /\ (creditors_unique (add_debt c a ir mp s)
            <-> creditors_unique s /\ ~ In c (map creditor (debts s))))
  /\ (forall (today : string) (s s' : Store) (sel : string) (P i pp n : Q),
        creditors_unique s ->
        apply_additional_payment today s sel P = (PaymentApplied i pp n, s') ->
        exists l1 d l2,
          selected_debt_details s sel = Some d
          /\ debts s = l1 ++ d :: l2
          /\ debts s' = l1 ++ set_amount_owed n d :: l2).
Proof.
  split; [|split].
  - intros s Hs. now destruct (reachable_invariants s Hs) as (_ & _ & Hid).
  - intros c a ir mp s. split.
    + eexists. split; [reflexivity|]. split; [reflexivity|].
      cbn. apply next_rowid_fresh.
    + unfold creditors_unique. cbn. rewrite map_app. cbn. apply NoDup_snoc.
  - intros today s s' sel P i pp n Hu E.
    destruct (apply_additional_payment_applied _ _ _ _ _ _ _ _ E)
      as (d & Hd & _ & _ & _ & _ & _ & Hs).
    destruct (update_amount_owed_one_row n sel (debts s) d Hu Hd)
      as (l1 & l2 & H1 & H2).
    exists l1, d, l2. rewrite Hs. cbn [debts]. now repeat split.
Qed.

Lemma debt_rows_and_creditor_names_witness :
  reachable two_bank_debts /\ NoDup (map debt_id (debts two_bank_debts)).
Proof.
  split; [exact two_bank_debts_reachable|].
  exact (proj1 debt_rows_and_creditor_names two_bank_debts
           two_bank_debts_reachable).
Defined.

(** * Further properties of the payoff simulation (lines 354-368) *)

(** The calculator's report comes from a finished loop. *)

Lemma payoff_calculator_paid_off (fuel : nat)
  (amount_owed interest_rate min_payment : Q) (m : nat) (t : Q) :
  Payoff.payoff_calculator fuel amount_owed interest_rate min_payment
  = Some (Payoff.PaidOff m t) ->
  0 < min_payment
  /\ exists st,
      Payoff.while_loop fuel (monthly_interest_rate interest_rate) min_payment
                        (Payoff.initial amount_owed) = Some st
      /\ Payoff.months st = m /\ Payoff.total_interest st = t.
Proof.
  unfold Payoff.payoff_calculator.
  destruct (Qgtb min_payment 0) eqn:E; [|discriminate].
  destruct (Payoff.while_loop _ _ _ _) as [st|]; [|discriminate].
  intros [= <- <-]. split; [now apply Qgtb_gt|]. now exists st.
Qed.

(** * Further properties of the payment block (lines 374-413) *)

(** X5.  A debt whose balance is <= 0 is shown as paid off: with at least
    one loop test the page run reports 0 months and a total interest of
    0 when min_payment > 0, and the warning otherwise; the loop body is
    never entered.  In particular this is what the page shows after a
    positive payment P >= B + B*r. *)

Theorem paid_off_debt_shows_zero_months
  (fuel : nat) (today : string) (s : Store) (sel : string) (d : Debt) :
  selected_debt_details s sel = Some d ->
  amount_owed d <= 0 ->
  manage_debts (S fuel) today s (ViewDebt sel)
  = Some (Calculated (if Qgtb (min_payment d) 0
                      then Payoff.PaidOff 0 0
                      else Payoff.MinPaymentWarning), s).
Proof.
  intros Hd Hle. cbn [manage_debts]. rewrite Hd.
  unfold Payoff.payoff_calculator.
  destruct (Qgtb (min_payment d) 0); [|reflexivity].
  rewrite while_loop_unfold. cbn [Payoff.initial Payoff.remaining_balance].
  now rewrite (proj2 (Qgtb_le _ _) Hle).
Qed.

Lemma paid_off_debt_shows_zero_months_witness :
  let s' := snd (apply_additional_payment "2026-01-15" card_500 "Card" 600) in
  exists d',
    selected_debt_details s' "Card" = Some d'
    /\ amount_owed d' <= 0
    /\ manage_debts 1 "2026-01-16" s' (ViewDebt "Card")
       = Some (Calculated (Payoff.PaidOff 0 0), s').
Proof.
  intro s'. eexists. split; [vm_compute; reflexivity|].
  split; [vm_compute; discriminate|].
  exact (paid_off_debt_shows_zero_months 0 "2026-01-16" s' "Card" _ eq_refl
           ltac:(vm_compute; discriminate)).
Defined.

Lemma update_amount_owed_named (n : Q) (sel : string) (ds : list Debt)
  (x' : Debt) :
  In x' (update_amount_owed n sel ds) -> creditor x' = sel ->
  amount_owed x' = n.
Proof.
  unfold update_amount_owed. rewrite in_map_iff. intros (x & Hx & _) Hc.
  destruct (String.eqb (creditor x) sel) eqn:E; subst x'; [reflexivity|].
  apply String.eqb_neq in E. contradiction.
Qed.

Lemma count_named_update (n : Q) (sel : string) (ds : list Debt) :
  List.length (filter (fun x => String.eqb (creditor x) sel)
                 (update_amount_owed n sel ds))
  = List.length (filter (fun x => String.eqb (creditor x) sel) ds).
Proof.
  unfold update_amount_owed.
  induction ds as [|x ds IH]; [reflexivity|]. cbn [map filter].
  destruct (String.eqb (creditor x) sel) eqn:E;
    cbn [set_amount_owed creditor]; rewrite E; cbn [List.length];
    now rewrite IH.
Qed.

(** X6.  The balance update goes by creditor name, the log record by the
    selected row.  An applied payment writes the new balance, computed
    from the first row with the selected name, into every row with that
    name (their number does not change), and the record added to the
    payment log holds, in [debt_id], the eight bytes of the id of that
    first row. *)

Theorem payment_rewrites_every_row_of_the_name
  (today : string) (s s' : Store) (sel : string) (P i pp n : Q) :
  apply_additional_payment today s sel P = (PaymentApplied i pp n, s') ->
  exists d,
    selected_debt_details s sel = Some d
    /\ n = amount_owed d - pp
    /\ (forall x', In x' (debts s') -> creditor x' = sel -> amount_owed x' = n)
    /\ List.length (filter (fun x => String.eqb (creditor x) sel) (debts s'))
       = List.length (filter (fun x => String.eqb (creditor x) sel) (debts s))
    /\ (exists pid,
          debt_payments s'
          = debt_payments s
            ++ [mkDebtPayment pid (SqlBlob (int64_le (debt_id d))) P today]).
Proof.
  intro E.
  destruct (apply_additional_payment_applied _ _ _ _ _ _ _ _ E)
    as (d & Hd & _ & _ & _ & _ & Hn & Hs).
  exists d. rewrite Hs. cbn [debts debt_payments].
  split; [exact Hd|]. split; [exact Hn|].
  split; [intros x'; apply update_amount_owed_named|].
  split; [apply count_named_update|].
  eexists. reflexivity.
Qed.

Lemma payment_rewrites_every_row_of_the_name_witness :
  exists i pp n s',
    apply_additional_payment "2026-01-15" two_bank_debts "Bank" 10
    = (PaymentApplied i pp n, s')
    /\ (forall x', In x' (debts s') -> creditor x' = "Bank" -> amount_owed x' = n)
    /\ exists pid,
         debt_payments s'
         = debt_payments two_bank_debts
           ++ [mkDebtPayment pid (SqlBlob (int64_le 1)) 10 "2026-01-15"].
Proof.
  do 4 eexists. split; [reflexivity|].
  destruct (payment_rewrites_every_row_of_the_name "2026-01-15"
              two_bank_debts _ "Bank" 10 _ _ _ eq_refl)
    as (d & Hd & _ & Hall & _ & Hlog).
  split; [exact Hall|]. injection Hd as <-. exact Hlog.
Defined.


(** * Further properties of the debts table and the payment log *)

Lemma find_snoc {A : Type} (f : A -> bool) (l : list A) (x : A) :
  find f (l ++ [x])
  = match find f l with
    | Some d => Some d
    | None => if f x then Some x else None
    end.
Proof.
  induction l as [|y l IH]; cbn; [reflexivity|].
  destruct (f y); [reflexivity | exact IH].
Qed.

Lemma sql_sum_snoc {A : Type} (column : A -> Q) (rows : list A) (x : A) :
  sql_sum column (rows ++ [x]) == sql_sum column rows + column x.
Proof.
  unfold sql_sum. induction rows as [|y rows IH]; cbn [app fold_right].
  - ring.
  - rewrite IH. ring.
Qed.

(** X9.  Looking a debt up by name after adding one (lines 318 and 342).
    The row the page works on for a name is the first row with that
    name: after a debt is added under the name c, selecting any name
    gives the row it gave before if there was one; only if no row had
    the name c does selecting c give the new row.  A debt added under a
    name already in the table can therefore never be selected. *)

Theorem selected_debt_after_add_debt
  (c : string) (a ir mp : Q) (s : Store) (sel : string) :
  selected_debt_details (add_debt c a ir mp s) sel
  = match selected_debt_details s sel with
    | Some d => Some d
    | None =>
        if String.eqb c sel
        then Some (mkDebt (next_rowid (map debt_id (debts s))) c a ir mp)
        else None
    end.
Proof.
  unfold selected_debt_details, add_debt. cbn [debts].
  now rewrite find_snoc.
Qed.

(** The cases of one step of the application. *)

Lemma main_cases (fuel : nat) (today : string) (s s' : Store)
  (a : user_action) :
  number_inputs_ok a ->
  main fuel today s a = Some s' ->
  s' = s
  \/ s' = initialize_db
  \/ (exists c am ir mp,
        0 <= am /\ 0 <= ir /\ 0 <= mp /\ s' = add_debt c am ir mp s)
  \/ (exists sel P i pp n,
        apply_additional_payment today s sel P = (PaymentApplied i pp n, s'))
  \/ (exists x,
        0 <= x
        /\ (s' = add_to_savings x s \/ s' = update_goal x s
            \/ s' = update_monthly_savings x s)).
Proof.
  intros Hok Hrun. destruct a as [inp | x | g | m |]; cbn in Hrun, Hok.
  - destruct (manage_debts fuel today s inp) as [[out s0]|] eqn:E;
      [|discriminate].
    injection Hrun as <-. apply manage_debts_store in E.
    destruct inp as [c am ir mp | sel | sel P]; subst s0.
    + right. right. left. exists c, am, ir, mp. tauto.
    + now left.
    + destruct (apply_additional_payment today s sel P) as [o s1] eqn:Ea.
      cbn [snd]. destruct (accepted o) eqn:Eo.
      * destruct o as [i pp n| | |]; try discriminate.
        do 3 right. left. now exists sel, P, i, pp, n.
      * left. pose proof (apply_additional_payment_refused today s sel P) as Hr.
        rewrite Ea in Hr. cbn in Hr. now apply Hr.
  - injection Hrun as <-. do 4 right. exists x. tauto.
  - injection Hrun as <-. do 4 right. exists g. tauto.
  - injection Hrun as <-. do 4 right. exists m. tauto.
  - injection Hrun as <-. right. now left.
Qed.

Lemma tables_well_formed_payment (today : string) (s s' : Store)
  (sel : string) (P i pp n : Q) :
  tables_well_formed s ->
  apply_additional_payment today s sel P = (PaymentApplied i pp n, s') ->
  tables_well_formed s'.
Proof.
  intros (Hd & Hp & Hid & Hsav) E.
  destruct (apply_additional_payment_applied _ _ _ _ _ _ _ _ E)
    as (d & Hsel & HP & _ & _ & _ & _ & Hs).
  apply selected_debt_details_some in Hsel. destruct Hsel as [Hin _].
  rewrite Hs. unfold tables_well_formed, total_debt_payments.
  cbn [debts debt_payments savings]. unfold insert_debt_payment.
  rewrite update_amount_owed_id_bytes. repeat apply conj.
  - unfold update_amount_owed. apply Forall_map.
    eapply Forall_impl; [|exact Hd]. intros x Hx. cbn beta.
    now destruct (String.eqb (creditor x) sel).
  - apply Forall_app. split; [exact Hp|]. constructor; [|constructor].
    cbn [payment_amount payment_debt_id]. split; [exact HP|].
    exact (in_map (fun x => SqlBlob (int64_le (debt_id x))) _ _ Hin).
  - rewrite map_app. cbn. apply NoDup_snoc.
    split; [exact Hid | apply next_rowid_fresh].
  - rewrite sql_sum_snoc. cbn. unfold total_debt_payments in Hsav. lra.
Qed.

Lemma reachable_well_formed (s : Store) : reachable s -> tables_well_formed s.
Proof.
  induction 1 as [|s s' fuel today a Hs IH Hok Hrun].
  - unfold tables_well_formed, total_debt_payments. cbn.
    repeat apply conj; try constructor. discriminate.
  - destruct (main_cases fuel today s s' a Hok Hrun)
      as [-> | [-> | [(c & am & ir & mp & Ham & Hir & Hmp & ->)
                     | [(sel & P & i & pp & n & E)
                       | (x & Hx & [-> | [-> | ->]])]]]].
    + exact IH.
    + unfold tables_well_formed, total_debt_payments. cbn.
      repeat apply conj; try constructor. discriminate.
    + destruct IH as (Hd & Hp & Hid & Hsav).
      unfold tables_well_formed, total_debt_payments in *.
      cbn [add_debt debts debt_payments savings]. repeat apply conj.
      * apply Forall_app. split; [exact Hd|]. constructor; [|constructor].
        now split.
      * eapply Forall_impl; [|exact Hp]. intros p [Hpos Hin].
        split; [exact Hpos|]. rewrite map_app. apply in_or_app. now left.
      * exact Hid.
      * exact Hsav.
    + exact (tables_well_formed_payment today s s' sel P i pp n IH E).
    + destruct IH as (Hd & Hp & Hid & Hsav).
      unfold tables_well_formed, total_debt_payments in *.
      cbn [add_to_savings debts debt_payments savings saved_amount
           monthly_savings].
      repeat apply conj; trivial. lra.
    + destruct IH as (Hd & Hp & Hid & Hsav).
      unfold tables_well_formed, total_debt_payments in *.
      cbn [update_goal debts debt_payments savings saved_amount
           monthly_savings].
      repeat apply conj; trivial.
    + destruct IH as (Hd & Hp & Hid & Hsav).
      unfold tables_well_formed, total_debt_payments in *.
      cbn [update_monthly_savings debts debt_payments savings saved_amount
           monthly_savings].
      repeat apply conj; trivial. lra.
Qed.

(** X10.  Integrity of the payment log.  In every store the program can
    reach, each record of the payment log has a positive amount and
    holds, in [debt_id], the eight bytes of the id of a debt that is in
    the debts table, and the record ids are pairwise distinct. *)

Theorem payment_log_integrity (s : Store) :
  reachable s ->
  (forall p, In p (debt_payments s) ->
     0 < payment_amount p
     /\ exists d, In d (debts s)
                  /\ payment_debt_id p = SqlBlob (int64_le (debt_id d)))
  /\ NoDup (map payment_id (debt_payments s)).
Proof.
  intro Hs. destruct (reachable_well_formed s Hs) as (_ & Hp & Hid & _).
  split; [|exact Hid].
  intros p Hin. rewrite Forall_forall in Hp. destruct (Hp p Hin) as [Hpos Hd].
  split; [exact Hpos|].
  apply in_map_iff in Hd. destruct Hd as (d & Heq & Hdin). now exists d.
Qed.

(** X11.  In every store the program can reach, every debt has a
    non-negative interest_rate and a non-negative min_payment: they are
    entered through number inputs with a minimum of 0 and no statement
    writes them again (the amount owed can become negative, see X4). *)

Theorem debt_terms_stay_non_negative (s : Store) :
  reachable s ->
  forall d, In d (debts s) -> 0 <= interest_rate d /\ 0 <= min_payment d.
Proof.
  intros Hs d Hin. destruct (reachable_well_formed s Hs) as (Hd & _).
  rewrite Forall_forall in Hd. now apply Hd.
Qed.

(** X12.  The savings and the payment log reconcile.  In every store the
    program can reach, saved_amount + SUM(payment_amount) is at least
    monthly_savings, which is >= 0: the savings can be negative, but by
    no more than the total of the logged debt payments. *)


Lemma card_500_paid_reachable :
  reachable (snd (apply_additional_payment "2026-01-15" card_500 "Card" 50)).
Proof.
  apply (reachable_step card_500 _ 8 "2026-01-15"
           (OnDebtPage (ClickApplyPayment "Card" 50)) card_500_reachable).
  - discriminate.
  - vm_compute. reflexivity.
Qed.

Lemma debt_terms_stay_non_negative_witness :
  let s := snd (apply_additional_payment "2026-01-15" card_500 "Card" 50) in
  reachable s
  /\ forall d, In d (debts s) -> 0 <= interest_rate d /\ 0 <= min_payment d.
Proof.
  intro s. split; [exact card_500_paid_reachable|].
  exact (debt_terms_stay_non_negative s card_500_paid_reachable).
Defined.


Lemma payment_log_integrity_witness :
  let s := snd (apply_additional_payment "2026-01-15" card_500 "Card" 50) in
  reachable s
  /\ debt_payments s
     = [mkDebtPayment 1 (SqlBlob (int64_le 1)) 50 "2026-01-15"]
  /\ forall p, In p (debt_payments s) ->
       0 < payment_amount p
       /\ exists d, In d (debts s)
                    /\ payment_debt_id p = SqlBlob (int64_le (debt_id d)).
Proof.
  intro s. split; [exact card_500_paid_reachable|]. split; [reflexivity|].
  exact (proj1 (payment_log_integrity s card_500_paid_reachable)).
Defined.

(** Rows that differ at most in the amount owed. *)

Lemma same_terms_refl (ds : list Debt) :
  Forall2 (fun x x' => debt_id x' = debt_id x /\ creditor x' = creditor x
                       /\ interest_rate x' = interest_rate x
                       /\ min_payment x' = min_payment x) ds ds.
Proof. induction ds; constructor; auto. Qed.

Lemma same_terms_update (n : Q) (sel : string) (ds : list Debt) :
  Forall2 (fun x x' => debt_id x' = debt_id x /\ creditor x' = creditor x
                       /\ interest_rate x' = interest_rate x
                       /\ min_payment x' = min_payment x)
          ds (update_amount_owed n sel ds).
Proof.
  induction ds as [|x ds IH]; cbn; constructor; [|exact IH].
  now destruct (String.eqb (creditor x) sel).
Qed.

(** X13.  Nothing but "Reset Database" removes anything.  Every other
    action leaves the payment log as it was or appends one record to it,
    and leaves every debt row in place under its id, creditor,
    interest_rate and min_payment, appending at most one row. *)

Theorem only_reset_deletes
  (fuel : nat) (today : string) (s s' : Store) (a : user_action) :
  main fuel today s a = Some s' ->
  a <> ResetDatabase ->
  (exists added,
      debt_payments s' = debt_payments s ++ added
      /\ (List.length added <= 1)%nat)
  /\ (exists kept added,
        debts s' = kept ++ added
        /\ (List.length added <= 1)%nat
        /\ Forall2 (fun x x' => debt_id x' = debt_id x
                                /\ creditor x' = creditor x
                                /\ interest_rate x' = interest_rate x
                                /\ min_payment x' = min_payment x)
                   (debts s) kept).
Proof.
  intros Hrun Hne.
  assert (Hsame : forall t : Store,
             debt_payments t = debt_payments s -> debts t = debts s ->
             (exists added,
                 debt_payments t = debt_payments s ++ added
                 /\ (List.length added <= 1)%nat)
             /\ (exists kept added,
                   debts t = kept ++ added
                   /\ (List.length added <= 1)%nat
                   /\ Forall2 (fun x x' => debt_id x' = debt_id x
                                           /\ creditor x' = creditor x
                                           /\ interest_rate x' = interest_rate x
                                           /\ min_payment x' = min_payment x)
                              (debts s) kept)).
  { intros t Hp Hd. split.
    - exists []. rewrite app_nil_r. split; [exact Hp | cbn; lia].
    - exists (debts s), []. rewrite app_nil_r.
      split; [exact Hd|]. split; [cbn; lia | apply same_terms_refl]. }
  destruct a as [inp | x | g | m |]; cbn in Hrun;
    [| injection Hrun as <-; now apply Hsame ..| contradiction].
  destruct (manage_debts fuel today s inp) as [[out s0]|] eqn:E;
    [|discriminate].
  injection Hrun as <-. apply manage_debts_store in E.
  destruct inp as [c am ir mp | sel | sel P]; subst s0.
  - split.
    + exists []. rewrite app_nil_r. split; [reflexivity | cbn; lia].
    + exists (debts s), [mkDebt (next_rowid (map debt_id (debts s))) c am ir mp].
      split; [reflexivity|]. split; [cbn; lia | apply same_terms_refl].
  - now apply Hsame.
  - destruct (apply_additional_payment today s sel P) as [o s1] eqn:Ea.
    cbn [snd]. destruct (accepted o) eqn:Eo.
    + destruct o as [i pp n| | |]; try discriminate.
      destruct (apply_additional_payment_applied _ _ _ _ _ _ _ _ Ea)
        as (d & _ & _ & _ & _ & _ & _ & Hs).
      rewrite Hs. cbn [debts debt_payments]. split.
      * eexists. split; [reflexivity | cbn; lia].
      * exists (update_amount_owed n sel (debts s)), [].
        rewrite app_nil_r. split; [reflexivity|].
        split; [cbn; lia | apply same_terms_update].
    + pose proof (apply_additional_payment_refused today s sel P) as Hr.
      rewrite Ea in Hr. cbn in Hr. rewrite (Hr Eo). now apply Hsame.
Qed.

Lemma only_reset_deletes_witness :
  let s' := snd (apply_additional_payment "2026-01-15" card_500 "Card" 50) in
  main 8 "2026-01-15" card_500 (OnDebtPage (ClickApplyPayment "Card" 50))
  = Some s'
  /\ exists added,
      debt_payments s' = debt_payments card_500 ++ added
      /\ (List.length added <= 1)%nat.
Proof.
  intro s'.
  assert (Hrun : main 8 "2026-01-15" card_500
                   (OnDebtPage (ClickApplyPayment "Card" 50)) = Some s')
    by (vm_compute; reflexivity).
  split; [exact Hrun|].
  exact (proj1 (only_reset_deletes 8 "2026-01-15" card_500 s' _ Hrun
                  ltac:(discriminate))).
Defined.

(** * The overview page (lines 106-140) *)

(** The total debt after the update by creditor name: every row of the
    name gives up the difference between its balance and the new one. *)



(** X14.  What an applied payment does to the overview.  Income and
    expenses are untouched.  "Total Savings" falls by the gross payment
    P.  "Total Debt" falls, for every row with the selected creditor
    name, by the difference between that row's balance and the new
    balance; with pairwise distinct creditor names that is the principal
    part pp of the payment, so that "Remaining Balance" rises by pp
    while "Remaining Balance (Without Debt)" falls by P. *)



(** X15.  What a new income or expense does to the overview (lines 193
    and 210).  Adding an income of amount a raises "Total Income" and
    both remaining balances by a; adding an expense of amount a raises
    "Total Expenses" by a and lowers both remaining balances by a; total
    savings and total debt are untouched. *)


(** * The savings page (lines 216-298) *)



(** X16.  The time to the savings goal.  When the page shows a number of
    months m, the goal and the monthly savings are positive, m is >= 0,
    and saving monthly_savings for m months reaches the goal: saved_amount
    + m * monthly_savings equals goal_amount when the goal is not yet
    met, and m is 0 when it is. *)



(** X17.  Which of the three messages the savings page shows.  In every
    store the program can reach, goal_amount and monthly_savings are not
    negative, so: the time to the goal is shown exactly when both are
    positive; the warning to set monthly savings exactly when the goal
    is positive and monthly_savings is 0; the hint to set a goal exactly
    when goal_amount is 0. *)

Theorem savings_page_message (s : Store) :
  reachable s ->
  let sv := savings s in
  ((exists m, time_to_goal sv = TimeToGoal m)
   <-> 0 < goal_amount sv /\ 0 < monthly_savings sv)
  /\ (time_to_goal sv = SetMonthlySavingsWarning
      <-> 0 < goal_amount sv /\ monthly_savings sv == 0)
  /\ (time_to_goal sv = SetGoalInfo <-> goal_amount sv == 0).
Proof.
  intros Hs sv. destruct (reachable_invariants s Hs) as (Hg & Hm & _).
  fold sv in Hg, Hm. unfold time_to_goal, Qleb.
  destruct (Qgtb (goal_amount sv) 0) eqn:Eg;
    destruct (Qgtb (monthly_savings sv) 0) eqn:Em; cbn [andb negb];
    try (unfold Qgtb in Em; rewrite Em; cbn [negb]);
    try apply Qgtb_gt in Eg; try apply Qgtb_le in Eg;
    try apply Qgtb_gt in Em; try apply Qgtb_le in Em.
  - split; [|split]; split; try discriminate.
    + intros _. now split.
    + intros _. now eexists.
    + intros [_ Hz]. lra.
    + intro Hz. lra.
  - split; [|split]; split; try discriminate.
    + intros [m Hmm]. discriminate.
    + intros [_ Hpos]. lra.
    + intros _. split; [exact Eg | lra].
    + reflexivity.
    + intro Hz. lra.
  - split; [|split]; split; try discriminate.
    + intros [m Hmm]. discriminate.
    + intros [Hpos _]. lra.
    + intros [Hpos _]. lra.
    + intros _. lra.
    + reflexivity.
  - split; [|split]; split; try discriminate.
    + intros [m Hmm]. discriminate.
    + intros [Hpos _]. lra.
    + intros [Hpos _]. lra.
    + intros _. lra.
    + reflexivity.
Qed.

Lemma savings_page_message_witness :
  reachable card_500 /\ time_to_goal (savings card_500) = SetGoalInfo.
Proof.
  split; [exact card_500_reachable|].
  apply (proj2 (proj2 (savings_page_message card_500 card_500_reachable))).
  reflexivity.
Defined.

(** * The savings table as rows (lines 67-71 and the forms' WHERE clause) *)

(** X18.  [initialize_db] may run at every start.  Ensuring the savings
    row never leaves the table empty, leaves a table that has a row
    exactly as it is, gives the single row (id 1, all zeros) on a new
    table, and doing it twice is the same as doing it once. *)

Theorem ensure_savings_row_once (rows : list SavingsRow) :
  ensure_savings_row rows <> []
  /\ (rows <> [] -> ensure_savings_row rows = rows)
  /\ ensure_savings_row [] = [mkSavingsRow 1 (mkSavings 0 0 0)]
  /\ ensure_savings_row (ensure_savings_row rows) = ensure_savings_row rows.
Proof.
  assert (Hkeep : forall l : list SavingsRow,
             l <> [] -> ensure_savings_row l = l).
  { intros [|r l] H; [contradiction | reflexivity]. }
  assert (Hne : ensure_savings_row rows <> []).
  { destruct rows as [|r l]; cbn; discriminate. }
  split; [exact Hne|]. split; [apply Hkeep|]. split; [reflexivity|].
  now apply Hkeep.
Qed.

Lemma min_id_spec (rows : list SavingsRow) :
  match min_id rows with
  | None => rows = []
  | Some m =>
      In m (map savings_id rows)
      /\ forall r, In r rows -> (m <= savings_id r)%Z
  end.
Proof.
  induction rows as [|r rows IH]; [reflexivity|].
  cbn [min_id]. destruct (min_id rows) as [m|].
  - destruct IH as [Hin Hle]. split.
    + cbn [map]. destruct (Z.min_spec (savings_id r) m) as [[_ ->]|[_ ->]];
        [now left | now right].
    + intros x [<-|Hx]; [lia|]. specialize (Hle x Hx). lia.
  - subst rows. split; [now left|]. intros x [<-|[]]. lia.
Qed.

Lemma update_one_id (change : Savings -> Savings) (m : Z)
  (rows : list SavingsRow) :
  NoDup (map savings_id rows) ->
  In m (map savings_id rows) ->
  exists before r after,
    rows = before ++ r :: after
    /\ savings_id r = m
    /\ map (fun x => if Z.eqb (savings_id x) m
                     then mkSavingsRow (savings_id x) (change (savings_values x))
                     else x) rows
       = before ++ mkSavingsRow m (change (savings_values r)) :: after.
Proof.
  induction rows as [|x rows IH]; intros Hnd Hin; [contradiction|].
  cbn in Hnd. inversion Hnd as [|? ? Hnot Hnd']; subst.
  destruct (Z.eqb (savings_id x) m) eqn:E.
  - apply Z.eqb_eq in E. exists [], x, rows.
    split; [reflexivity|]. split; [exact E|].
    cbn [map app]. rewrite (proj2 (Z.eqb_eq _ _) E), E. f_equal.
    rewrite <- (map_id rows) at 2. apply map_ext_in. intros y Hy.
    destruct (Z.eqb (savings_id y) m) eqn:Ey; [|reflexivity].
    exfalso. apply Hnot. apply Z.eqb_eq in Ey. rewrite E, <- Ey.
    now apply in_map.
  - destruct Hin as [Hx|Hin]; [apply Z.eqb_neq in E; contradiction|].
    destruct (IH Hnd' Hin) as (before & r & after & -> & Hr & Hmap).
    exists (x :: before), r, after.
    split; [reflexivity|]. split; [exact Hr|].
    cbn [map app]. rewrite E. f_equal. exact Hmap.
Qed.

(** X19.  The forms write one row.  On a savings table that is not empty
    and has pairwise distinct ids, an update with
    [WHERE id = (SELECT MIN(id) FROM savings)] changes the row with the
    smallest id, and only that row: the rows before and after it are
    kept, so is the length, and reading the row with that id back gives
    the changed values. *)

Theorem update_where_min_id_one_row (change : Savings -> Savings)
  (rows : list SavingsRow) :
  rows <> [] ->
  NoDup (map savings_id rows) ->
  exists m before r after,
    min_id rows = Some m
    /\ (forall x, In x rows -> (m <= savings_id x)%Z)
    /\ rows = before ++ r :: after
    /\ savings_id r = m
    /\ update_where_min_id change rows
       = before ++ mkSavingsRow m (change (savings_values r)) :: after
    /\ savings_row_with m (update_where_min_id change rows)
       = Some (mkSavingsRow m (change (savings_values r))).
Proof.
  intros Hne Hnd. pose proof (min_id_spec rows) as Hmin.
  unfold update_where_min_id.
  destruct (min_id rows) as [m|]; [|contradiction].
  destruct Hmin as [Hin Hle].
  destruct (update_one_id change m rows Hnd Hin)
    as (before & r & after & Hrows & Hr & Hmap).
  exists m, before, r, after.
  split; [reflexivity|]. split; [exact Hle|]. split; [exact Hrows|].
  split; [exact Hr|]. split; [exact Hmap|].
  rewrite Hmap. unfold savings_row_with.
  assert (Hbefore : forall x, In x before -> Z.eqb (savings_id x) m = false).
  { intros x Hx. apply Z.eqb_neq. intro Heq.
    rewrite Hrows, map_app in Hnd. cbn [map] in Hnd.
    apply NoDup_remove_2 in Hnd. apply Hnd. apply in_or_app. left.
    rewrite Hr, <- Heq. now apply in_map. }
  clear - Hbefore. induction before as [|x before IH]; cbn [app find].
  - cbn [savings_id]. now rewrite Z.eqb_refl.
  - rewrite (Hbefore x (or_introl eq_refl)). apply IH.
    intros y Hy. apply Hbefore. now right.
Qed.

Lemma update_where_min_id_one_row_witness :
  let rows := ensure_savings_row [] in
  let add := fun sv => mkSavings (saved_amount sv + 25) (goal_amount sv)
                                 (monthly_savings sv) in
  exists m before r after,
    min_id rows = Some m
    /\ rows = before ++ r :: after
    /\ update_where_min_id add rows
       = before ++ mkSavingsRow m (add (savings_values r)) :: after.
Proof.
  intros rows add.
  destruct (update_where_min_id_one_row add rows ltac:(discriminate)
              ltac:(repeat constructor; intros []))
    as (m & before & r & after & Hm & _ & Hrows & _ & Hup & _).
  now exists m, before, r, after.
Defined.

Lemma ensure_savings_row_once_witness :
  let rows := [mkSavingsRow 1 (mkSavings 40 100 10)] in
  rows <> [] /\ ensure_savings_row rows = rows.
Proof.
  intro rows. split; [discriminate|].
  apply (proj1 (proj2 (ensure_savings_row_once rows))). discriminate.
Defined.

(** * How the simulation depends on the minimum payment *)

Section TwoPayments.
Variables (amount_owed rate min_payment min_payment' : Q).
Hypothesis rate_nonneg : 0 <= rate.
Hypothesis payment_le : min_payment <= min_payment'.

Let bal := Payoff.balance_after amount_owed rate min_payment.
Let bal' := Payoff.balance_after amount_owed rate min_payment'.
Let acc := Payoff.interest_through amount_owed rate min_payment.
Let acc' := Payoff.interest_through amount_owed rate min_payment'.

Lemma balance_after_antitone (k : nat) : bal' k <= bal k.
Proof.
  induction k as [|k IH]; [apply Qle_refl|].
  subst bal bal'. cbn [Payoff.balance_after] in *.
  set (b := Payoff.balance_after amount_owed rate min_payment k) in *.
  set (b' := Payoff.balance_after amount_owed rate min_payment' k) in *.
  assert (H : b' * rate <= b * rate) by now apply Qmult_le_compat_r.
  lra.
Qed.

Lemma interest_through_antitone (k : nat) : acc' k <= acc k.
Proof.
  induction k as [|k IH]; [apply Qle_refl|].
  subst acc acc'. cbn [Payoff.interest_through] in *.
  unfold Payoff.interest_of_period.
  pose proof (balance_after_antitone k) as Hb. subst bal bal'. cbn beta in Hb.
  assert (H : Payoff.balance_after amount_owed rate min_payment' k * rate
              <= Payoff.balance_after amount_owed rate min_payment k * rate)
    by now apply Qmult_le_compat_r.
  lra.
Qed.

Lemma interest_through_grows (m j k : nat) :
  (forall i, (i < m)%nat -> 0 < bal i) ->
  (j <= k <= m)%nat -> acc j <= acc k.
Proof.
  intros Hpos [Hjk Hkm]. induction k as [|k IH].
  - assert (j = 0)%nat as -> by lia. apply Qle_refl.
  - destruct (Nat.eq_dec j (S k)) as [->|Hne]; [apply Qle_refl|].
    assert (Hk : acc j <= acc k) by (apply IH; lia).
    subst acc. cbn [Payoff.interest_through]. unfold Payoff.interest_of_period.
    assert (Hb : 0 < bal k) by (apply Hpos; lia). subst bal. cbn beta in Hb.
    assert (Hi : 0 <= Payoff.balance_after amount_owed rate min_payment k * rate)
      by (apply Qmult_le_0_compat; [now apply Qlt_le_weak | exact rate_nonneg]).
    cbn beta in Hk. lra.
Qed.

Lemma larger_payment_loop (fuel fuel' : nat) (st st' : Payoff.loop_state) :
  Payoff.while_loop fuel rate min_payment (Payoff.initial amount_owed)
  = Some st ->
  Payoff.while_loop fuel' rate min_payment' (Payoff.initial amount_owed)
  = Some st' ->
  (Payoff.months st' <= Payoff.months st)%nat
  /\ Payoff.total_interest st' <= Payoff.total_interest st.
Proof.
  intros H H'.
  apply while_loop_result_iff in H. destruct H as (_ & Hle & Hpos & Hst).
  apply while_loop_result_iff in H'. destruct H' as (_ & Hle' & Hpos' & Hst').
  set (m := Payoff.months st) in *. set (m' := Payoff.months st') in *.
  assert (Hm : (m' <= m)%nat).
  { destruct (le_lt_dec m' m) as [Hok|Hlt]; [exact Hok|].
    exfalso. specialize (Hpos' m Hlt).
    pose proof (balance_after_antitone m) as Hb. subst bal bal'.
    cbn beta in Hb. lra. }
  split; [exact Hm|].
  rewrite Hst, Hst'. cbn [Payoff.total_interest].
  pose proof (interest_through_antitone m') as H1.
  pose proof (interest_through_grows m m' m Hpos (conj Hm (le_n m))) as H2.
  subst acc acc'. cbn beta in H1, H2. lra.
Qed.
End TwoPayments.

(** X21.  Paying more per month never takes longer and never costs more
    interest: for the same debt with interest_rate >= 0, if the
    calculator reports m months and total interest t for min_payment and
    m' and t' for a min_payment' >= min_payment, then m' <= m and
    t' <= t. *)

Theorem larger_min_payment_pays_off_sooner
  (fuel fuel' : nat) (amount_owed interest_rate min_payment min_payment' : Q)
  (m m' : nat) (t t' : Q) :
  0 <= interest_rate ->
  min_payment <= min_payment' ->
  Payoff.payoff_calculator fuel amount_owed interest_rate min_payment
  = Some (Payoff.PaidOff m t) ->
  Payoff.payoff_calculator fuel' amount_owed interest_rate min_payment'
  = Some (Payoff.PaidOff m' t') ->
  (m' <= m)%nat /\ t' <= t.
Proof.
  intros Hir Hle H H'.
  destruct (payoff_calculator_paid_off _ _ _ _ _ _ H)
    as (_ & st & Hrun & <- & <-).
  destruct (payoff_calculator_paid_off _ _ _ _ _ _ H')
    as (_ & st' & Hrun' & <- & <-).
  exact (larger_payment_loop amount_owed (monthly_interest_rate interest_rate)
           min_payment min_payment'
           (monthly_interest_rate_nonneg _ Hir) Hle fuel fuel' st st'
           Hrun Hrun').
Qed.

Lemma larger_min_payment_pays_off_sooner_witness :
  exists m m' t t',
    Payoff.payoff_calculator 8 1200 12 200 = Some (Payoff.PaidOff m t)
    /\ Payoff.payoff_calculator 8 1200 12 300 = Some (Payoff.PaidOff m' t')
    /\ (m' <= m)%nat /\ t' <= t.
Proof.
  do 4 eexists. split; [vm_compute; reflexivity|].
  split; [vm_compute; reflexivity|].
  match goal with
  | |- (?m' <= ?m)%nat /\ ?t' <= ?t =>
      exact (larger_min_payment_pays_off_sooner 8 8 1200 12 200 300 m m' t t'
               ltac:(discriminate) ltac:(discriminate)
               ltac:(vm_compute; reflexivity) ltac:(vm_compute; reflexivity))
  end.
Defined.

(** * Facts about the program in binary64 *)

Module B64Facts.
Import PrimFloat.
Local Open Scope float_scope.

(** ** The payoff loop *)

Lemma while_loop_unfold_b64 (fuel : nat) (rate min_payment : float)
  (st : B64.loop_state) :
  B64.while_loop (S fuel) rate min_payment st =
  if 0 <? B64.remaining_balance st
  then B64.while_loop fuel rate min_payment (B64.loop_body rate min_payment st)
  else Some st.
Proof. reflexivity. Qed.

Lemma while_loop_more_fuel_b64 (rate min_payment : float) (fuel fuel' : nat)
  (st st' : B64.loop_state) :
  (fuel <= fuel')%nat ->
  B64.while_loop fuel rate min_payment st = Some st' ->
  B64.while_loop fuel' rate min_payment st = Some st'.
Proof.
  revert fuel' st. induction fuel as [|n IH]; intros fuel' st Hle H.
  - discriminate.
  - destruct fuel' as [|m]; [lia|].
    rewrite while_loop_unfold_b64 in *.
    destruct (0 <? B64.remaining_balance st); [|exact H].
    apply IH; [lia | exact H].
Qed.

(** A balance that a pass gives back unchanged is never left, whatever
    the interest accumulated so far. *)

Lemma while_loop_balance_fixed (rate min_payment b : float) :
  (0 <? b) = true ->
  b - (min_payment - b * rate) = b ->
  forall (fuel : nat) (t : float) (m : nat),
    B64.while_loop fuel rate min_payment (B64.mkLoop b t m) = None.
Proof.
  intros Htest Hb. induction fuel as [|n IH]; intros t m; [reflexivity|].
  rewrite while_loop_unfold_b64. cbn [B64.remaining_balance]. rewrite Htest.
  unfold B64.loop_body.
  cbn [B64.remaining_balance B64.total_interest B64.months].
  rewrite Hb. apply IH.
Qed.

Lemma while_loop_fixed (rate min_payment b t : float) :
  (0 <? b) = true ->
  b - (min_payment - b * rate) = b ->
  forall (fuel m : nat),
    B64.while_loop fuel rate min_payment (B64.mkLoop b t m) = None.
Proof.
  intros Htest Hb fuel m. now apply while_loop_balance_fixed.
Qed.

(** A loop that makes [n] passes into a state it never leaves never ends. *)


(** The loop against the recurrence. *)

Lemma while_loop_from_period_b64 (amount_owed rate min_payment : float)
  (fuel k : nat) :
  B64.while_loop fuel rate min_payment
    (B64.mkLoop (B64.balance_after amount_owed rate min_payment k)
                (B64.interest_through amount_owed rate min_payment k) k) =
  match B64.payoff_period amount_owed rate min_payment fuel k with
  | Some j =>
      Some (B64.mkLoop (B64.balance_after amount_owed rate min_payment j)
                       (B64.interest_through amount_owed rate min_payment j) j)
  | None => None
  end.
Proof.
  revert k. induction fuel as [|n IH]; intro k; [reflexivity|].
  rewrite while_loop_unfold_b64. cbn [B64.remaining_balance B64.payoff_period].
  destruct (0 <? B64.balance_after amount_owed rate min_payment k);
    [|reflexivity].
  exact (IH (S k)).
Qed.

Lemma payoff_period_sound_b64 (amount_owed rate min_payment : float)
  (n k j : nat) :
  B64.payoff_period amount_owed rate min_payment n k = Some j ->
  (k <= j < k + n)%nat
  /\ (0 <? B64.balance_after amount_owed rate min_payment j) = false
  /\ forall i, (k <= i < j)%nat ->
       (0 <? B64.balance_after amount_owed rate min_payment i) = true.
Proof.
  revert k. induction n as [|n IH]; intros k H; [discriminate|].
  cbn [B64.payoff_period] in H.
  destruct (0 <? B64.balance_after amount_owed rate min_payment k) eqn:E.
  - destruct (IH _ H) as (Hr & Hj & Hlt).
    split; [lia|]. split; [exact Hj|].
    intros i Hi. destruct (Nat.eq_dec i k) as [->|Hne]; [exact E|].
    apply Hlt. lia.
  - injection H as <-. split; [lia|]. split; [exact E|]. intros i Hi. lia.
Qed.

Lemma payoff_period_complete_b64 (amount_owed rate min_payment : float)
  (n k j : nat) :
  (k <= j < k + n)%nat ->
  (0 <? B64.balance_after amount_owed rate min_payment j) = false ->
  (forall i, (k <= i < j)%nat ->
     (0 <? B64.balance_after amount_owed rate min_payment i) = true) ->
  B64.payoff_period amount_owed rate min_payment n k = Some j.
Proof.
  revert k. induction n as [|n IH]; intros k Hr Hj Hlt; [lia|].
  cbn [B64.payoff_period].
  destruct (Nat.eq_dec k j) as [->|Hne].
  - now rewrite Hj.
  - rewrite (Hlt k ltac:(lia)).
    apply IH; [lia | exact Hj |]. intros i Hi. apply Hlt. lia.
Qed.

Lemma while_loop_result_iff_b64 (amount_owed rate min_payment : float)
  (fuel : nat) (st : B64.loop_state) :
  B64.while_loop fuel rate min_payment (B64.initial amount_owed) = Some st
  <-> (B64.months st < fuel)%nat
      /\ (0 <? B64.balance_after amount_owed rate min_payment (B64.months st))
         = false
      /\ (forall i, (i < B64.months st)%nat ->
            (0 <? B64.balance_after amount_owed rate min_payment i) = true)
      /\ st = B64.mkLoop
                (B64.balance_after amount_owed rate min_payment (B64.months st))
                (B64.interest_through amount_owed rate min_payment
                   (B64.months st))
                (B64.months st).
Proof.
  change (B64.initial amount_owed)
    with (B64.mkLoop (B64.balance_after amount_owed rate min_payment 0)
            (B64.interest_through amount_owed rate min_payment 0) 0).
  rewrite while_loop_from_period_b64. split.
  - destruct (B64.payoff_period amount_owed rate min_payment fuel 0)
      as [j|] eqn:E; [|discriminate].
    intros [= <-]. cbn [B64.months].
    destruct (payoff_period_sound_b64 _ _ _ fuel 0 j E) as (Hr & Hj & Hlt).
    split; [lia|]. split; [exact Hj|]. split; [|reflexivity].
    intros i Hi. apply Hlt. lia.
  - intros (Hr & Hj & Hlt & Hst).
    rewrite (payoff_period_complete_b64 _ _ _ fuel 0 (B64.months st)).
    + now rewrite Hst at 4.
    + lia.
    + exact Hj.
    + intros i Hi. apply Hlt. lia.
Qed.

(** C4 (the code against it).  Two debts within the claim: every amount
    is non-negative and the minimum payment exceeds the interest of the
    first period.

    amount_owed = 1e16, interest_rate = 0, min_payment = 0.5: the
    interest is 0 and the principal 0.5 is lost in the rounding of
    1e16 - 0.5.

    amount_owed = 1200, interest_rate = 23, min_payment =
    0x1.7000000000002p+4 (23.000000000000007): the interest is 23, the
    interest computed is 23.000000000000004, and the principal, 3.6e-15,
    is lost in the rounding of the subtraction from 1200.

    In both a pass through the loop leaves the balance where it was:
    whatever the number of loop tests allowed, the calculator has
    produced no report, and a page run with such a debt selected never
    returns.  A debt of 0 is reported as paid off in 0 months. *)

Theorem payoff_never_ends_when_principal_is_absorbed :
  (let a := 1e16 in
   let mp := 0.5 in
   let r := B64.monthly_interest_rate 0 in
   ((0 <=? a) = true /\ (0 <=? 0) = true /\ (a * r <? mp) = true)
   /\ mp - a * r = 0.5
   /\ B64.remaining_balance (B64.loop_body r mp (B64.initial a)) = a
   /\ (forall fuel, B64.payoff_calculator fuel a 0 mp = None)
   /\ (forall fuel today P,
         B64.manage_debts fuel today
           (B64.add_debt "Loan" a 0 mp B64.initialize_db)
           (B64.ClickApplyPayment "Loan" P) = None))
  /\ (let a := 1200 in
      let mp := 0x1.7000000000002p+4 in
      let r := B64.monthly_interest_rate 23 in
      ((0 <=? a) = true /\ (0 <=? 23) = true /\ (a * r <? mp) = true)
      /\ (exists q, F2Q mp = Some q /\ (1200 * (23 / 100 / 12) < q)%Q)
      /\ (0 <? mp - a * r) = true
      /\ B64.remaining_balance (B64.loop_body r mp (B64.initial a)) = a
      /\ (forall fuel, B64.payoff_calculator fuel a 23 mp = None)
      /\ (forall fuel today,
            B64.manage_debts fuel today
              (B64.add_debt "Loan" a 23 mp B64.initialize_db)
              (B64.ViewDebt "Loan") = None))
  /\ (forall fuel ir,
        B64.payoff_calculator (S fuel) 0 ir 1 = Some (B64.PaidOff 0 0)).
Proof.
  split; [|split].
  - intros a mp r.
    assert (Hloop : forall fuel, B64.payoff_calculator fuel a 0 mp = None).
    { intro fuel.
      pose proof (while_loop_fixed r mp a 0 eq_refl eq_refl fuel 0%nat)
        as H.
      unfold B64.payoff_calculator, B64.initial.
      change (0 <? mp) with true. cbv iota.
      fold r. now rewrite H. }
    split; [repeat split|]. split; [reflexivity|]. split; [reflexivity|].
    split; [exact Hloop|].
    intros fuel today P. cbn [B64.manage_debts].
    change (B64.selected_debt_details
              (B64.add_debt "Loan" a 0 mp B64.initialize_db) "Loan")
      with (Some (B64.mkDebt 1 "Loan" a 0 mp)).
    cbn [B64.amount_owed B64.interest_rate B64.min_payment].
    now rewrite Hloop.
  - intros a mp r.
    assert (Hloop : forall fuel, B64.payoff_calculator fuel a 23 mp = None).
    { intro fuel.
      pose proof (while_loop_balance_fixed r mp a eq_refl eq_refl fuel 0
                    0%nat) as H.
      unfold B64.payoff_calculator, B64.initial.
      change (0 <? mp) with true. cbv iota.
      fold r. now rewrite H. }
    split; [repeat split|].
    split; [eexists; split; vm_compute; reflexivity|].
    split; [reflexivity|]. split; [reflexivity|].
    split; [exact Hloop|].
    intros fuel today. cbn [B64.manage_debts].
    change (B64.selected_debt_details
              (B64.add_debt "Loan" a 23 mp B64.initialize_db) "Loan")
      with (Some (B64.mkDebt 1 "Loan" a 23 mp)).
    cbn [B64.amount_owed B64.interest_rate B64.min_payment].
    now rewrite Hloop.
  - intros fuel ir. reflexivity.
Qed.

(** ** The payment block *)

Lemma find_update_amount_owed_b64 (n : float) (sel : string) (ds : list B64.Debt)
  (d : B64.Debt) :
  find (fun x => String.eqb (B64.creditor x) sel) ds = Some d ->
  find (fun x => String.eqb (B64.creditor x) sel)
       (B64.update_amount_owed n sel ds)
  = Some (B64.set_amount_owed n d).
Proof.
  induction ds as [|x ds IH]; intro H; [discriminate|].
  cbn in *. destruct (String.eqb (B64.creditor x) sel) eqn:E.
  - injection H as <-. cbn. now rewrite E.
  - now rewrite E; apply IH.
Qed.

Lemma selected_after_update_b64 (n : float) (s : B64.Store) (sel : string)
  (d : B64.Debt) (ps : list B64.DebtPayment) (sv : B64.Savings) :
  B64.selected_debt_details s sel = Some d ->
  B64.selected_debt_details
    {| B64.debts := B64.update_amount_owed n sel (B64.debts s);
       B64.debt_payments := ps; B64.savings := sv |} sel
  = Some (B64.set_amount_owed n d).
Proof.
  intro Hd. unfold B64.selected_debt_details. cbn [B64.debts].
  now apply find_update_amount_owed_b64.
Qed.

Lemma apply_additional_payment_applied_b64 (today : string) (s s' : B64.Store)
  (sel : string) (p i pp n : float) :
  B64.apply_additional_payment today s sel p
  = (B64.PaymentApplied i pp n, s') ->
  exists d,
    B64.selected_debt_details s sel = Some d
    /\ (0 <? p) = true
    /\ i = B64.amount_owed d * B64.monthly_interest_rate (B64.interest_rate d)
    /\ pp = p - i
    /\ (pp <? 0) = false
    /\ n = B64.amount_owed d - pp
    /\ s' = {| B64.debts := B64.update_amount_owed n sel (B64.debts s);
               B64.debt_payments :=
                 B64.insert_debt_payment (B64.debt_id d) p today
                                         (B64.debt_payments s);
               B64.savings := B64.deduct_from_savings p (B64.savings s) |}.
Proof.
  unfold B64.apply_additional_payment.
  destruct (B64.selected_debt_details s sel) as [d|]; [|discriminate].
  destruct (0 <? p) eqn:Ep; [|discriminate]. cbv zeta.
  destruct (_ <? 0) eqn:El; [discriminate|].
  intro H. injection H as <- <- <- <-.
  exists d. repeat apply conj; trivial.
Qed.

Lemma apply_additional_payment_refused_b64 (today : string) (s : B64.Store)
  (sel : string) (p : float) :
  B64.accepted (fst (B64.apply_additional_payment today s sel p)) = false ->
  snd (B64.apply_additional_payment today s sel p) = s.
Proof.
  unfold B64.apply_additional_payment.
  destruct (B64.selected_debt_details s sel) as [d|]; [|reflexivity].
  destruct (0 <? p); [|reflexivity]. cbv zeta.
  destruct (_ <? 0); [reflexivity | discriminate].
Qed.



(** The debt of 1000 at 24% with a minimum payment of 15: the balance
    grows from pass to pass until it is [infinity], and stays there. *)


(** C1 as stated fails, in two ways.  The store with the debt of 1000 at
    24% and a minimum payment of 15 is reachable; the interest of the
    month is 20 and a payment of 50 exceeds it, but no page run applies
    it: the calculator block, which runs first, never returns.  And at
    the boundary the test goes by the rounded interest: for the debt of
    100 at 23%, the payment 0x1.eaaaaaaaaaaabp+0 (1.9166666666666667)
    exceeds B * 23/100/12 = 1.91666..., yet the block refuses it, the
    computed interest being 1.916666666666667.  The same with amounts
    of two decimals: for the debt of 408 at 23%, B * 23/100/12 = 7.82;
    the payment entered as 7.82 is the float 0x1.f47ae147ae148p+2, which
    exceeds it, and is refused, the computed interest being
    0x1.f47ae147ae149p+2. *)


(** C1, amended.  For every debt of the table with balance B and monthly
    rate r = interest_rate/100/12, an additional payment P > 0 whose
    principal part P - B*r, as the program computes it in binary64, is
    not negative is applied by the payment block: the block reports
    interest B*r and principal P - B*r, and the selected debt then owes
    B - (P - B*r); every page run whose calculator block returns ends
    with this outcome and store.  On the debt of 500 at 24% a payment of
    50 gives interest 10, principal 40 and the new balance 460. *)



(** C2, amended.  For every debt of the table with balance B and monthly
    rate r, an additional payment P > 0 whose principal part P - B*r, as
    the program computes it in binary64, is negative is refused as
    insufficient, and a payment that is not positive is refused by the
    guard of line 376; in both cases the store (debt balances, payment
    log, savings) is returned unchanged, and every page run whose
    calculator block returns ends with that outcome.  On the debt of 1000
    at 24% the interest is 20 and a payment of 15 is refused as
    insufficient, the balance staying 1000. *)



(** ** The payoff simulation against the recurrence *)

Lemma payoff_calculator_more_fuel (fuel fuel' : nat) (a ir mp : float)
  (rep : B64.report) :
  (fuel <= fuel')%nat ->
  B64.payoff_calculator fuel a ir mp = Some rep ->
  B64.payoff_calculator fuel' a ir mp = Some rep.
Proof.
  intros Hle. unfold B64.payoff_calculator.
  destruct (0 <? mp); [|trivial].
  destruct (B64.while_loop fuel (B64.monthly_interest_rate ir) mp
              (B64.initial a)) as [st|] eqn:E; [|discriminate].
  now rewrite (while_loop_more_fuel_b64 _ _ fuel fuel' _ st Hle E).
Qed.

Lemma payoff_calculator_less_fuel (fuel fuel' : nat) (a ir mp : float) :
  (fuel' <= fuel)%nat ->
  B64.payoff_calculator fuel a ir mp = None ->
  B64.payoff_calculator fuel' a ir mp = None.
Proof.
  intros Hle Hnone.
  destruct (B64.payoff_calculator fuel' a ir mp) as [rep|] eqn:E; [|reflexivity].
  rewrite (payoff_calculator_more_fuel fuel' fuel a ir mp rep Hle E) in Hnone.
  discriminate.
Qed.

(** C5.  The loop of lines 360-365 is the recurrence of the
    specification, computed in binary64: for every input and every bound
    on the loop tests the loop gives what iterating the recurrence to
    the first period with a balance that is not positive gives, and the
    calculator reports m months and total interest t exactly when m is
    that period and t the interest accumulated through it.  For the debt
    of 1200 at 12% with a minimum payment of 200 the first period has
    interest 12, principal 188 and balance 1012; the loop ends at its
    eighth test, after 7 months, with total interest
    0x1.5ed7d1ac48153p+5, which is within 1e-14 of 43.855380388212, the
    value of the recurrence without rounding. *)

Theorem simulator_follows_recurrence :
  (forall (fuel : nat) (amount_owed interest_rate min_payment : float),
      B64.while_loop fuel (B64.monthly_interest_rate interest_rate)
                     min_payment (B64.initial amount_owed)
      = B64.recurrence_result amount_owed
          (B64.monthly_interest_rate interest_rate) min_payment fuel)
  /\ (forall (fuel : nat) (amount_owed interest_rate min_payment : float)
             (m : nat) (t : float),
        let r := B64.monthly_interest_rate interest_rate in
        B64.payoff_calculator fuel amount_owed interest_rate min_payment
        = Some (B64.PaidOff m t)
        <-> (0 <? min_payment) = true
            /\ (m < fuel)%nat
            /\ (0 <? B64.balance_after amount_owed r min_payment m) = false
            /\ (forall i, (i < m)%nat ->
                  (0 <? B64.balance_after amount_owed r min_payment i) = true)
            /\ t = B64.interest_through amount_owed r min_payment m)
  /\ (let r := B64.monthly_interest_rate 12 in
      B64.interest_of_period 1200 r 200 0 = 12
      /\ B64.principal_of_period 1200 r 200 0 = 188
      /\ B64.balance_after 1200 r 200 1 = 1012
      /\ B64.loop_body r 200 (B64.initial 1200) = B64.mkLoop 1012 12 1
      /\ B64.recurrence_result 1200 r 200 8
         = Some (B64.mkLoop (-0x1.384a0b94edfa9p+7) 0x1.5ed7d1ac48153p+5 7)
      /\ (forall fuel, (8 <= fuel)%nat ->
            B64.payoff_calculator fuel 1200 12 200
            = Some (B64.PaidOff 7 0x1.5ed7d1ac48153p+5))
      /\ (forall fuel, (fuel < 8)%nat ->
            B64.payoff_calculator fuel 1200 12 200 = None)
      /\ (exists q, F2Q 0x1.5ed7d1ac48153p+5 = Some q
                    /\ (Qabs (q - (43855380388212 # 1000000000000))
                        < 1 # 100000000000000)%Q)
      /\ (Payoff.interest_through 1200 (monthly_interest_rate 12) 200 7
          == 43855380388212 # 1000000000000)%Q).
Proof.
  split; [|split].
  - intros fuel a ir mp. unfold B64.recurrence_result.
    exact (while_loop_from_period_b64 a (B64.monthly_interest_rate ir) mp
             fuel 0).
  - intros fuel a ir mp m t r. unfold B64.payoff_calculator. fold r. split.
    + destruct (0 <? mp); [|discriminate].
      destruct (B64.while_loop fuel r mp (B64.initial a)) as [st|] eqn:E;
        [|discriminate].
      intros [= <- <-]. apply while_loop_result_iff_b64 in E.
      destruct E as (Hfuel & Hend & Hbefore & Hst).
      repeat apply conj; trivial. now rewrite Hst at 1.
    + intros (Hmp & Hfuel & Hend & Hbefore & ->). rewrite Hmp.
      assert (E : B64.while_loop fuel r mp (B64.initial a)
                  = Some (B64.mkLoop (B64.balance_after a r mp m)
                            (B64.interest_through a r mp m) m)).
      { apply while_loop_result_iff_b64. cbn [B64.months].
        repeat apply conj; trivial. }
      now rewrite E.
  - cbv zeta. split; [reflexivity|]. split; [reflexivity|].
    split; [reflexivity|]. split; [reflexivity|].
    split; [vm_compute; reflexivity|].
    split.
    { intros fuel Hfuel.
      apply (payoff_calculator_more_fuel 8 fuel); [exact Hfuel|].
      vm_compute. reflexivity. }
    split.
    { intros fuel Hfuel.
      apply (payoff_calculator_less_fuel 7 fuel); [lia|].
      vm_compute. reflexivity. }
    split.
    { eexists. split; [vm_compute; reflexivity|]. vm_compute. reflexivity. }
    vm_compute. reflexivity.
Qed.

Lemma simulator_follows_recurrence_witness :
  let r := B64.monthly_interest_rate 12 in
  ((0 <? 200) = true
   /\ (7 < 8)%nat
   /\ (0 <? B64.balance_after 1200 r 200 7) = false
   /\ (forall i, (i < 7)%nat -> (0 <? B64.balance_after 1200 r 200 i) = true)
   /\ (8 <= 8)%nat)
  /\ B64.payoff_calculator 8 1200 12 200
     = Some (B64.PaidOff 7 (B64.interest_through 1200 r 200 7))
  /\ B64.payoff_calculator 8 1200 12 200
     = Some (B64.PaidOff 7 0x1.5ed7d1ac48153p+5).
Proof.
  intro r.
  assert (Hbefore : forall i, (i < 7)%nat ->
            (0 <? B64.balance_after 1200 r 200 i) = true).
  { intros i Hi.
    do 7 (destruct i as [|i]; [vm_compute; reflexivity|]). lia. }
  split; [repeat apply conj; trivial; vm_compute; reflexivity|].
  split.
  - apply (proj1 (proj2 simulator_follows_recurrence) 8%nat 1200 12 200 7%nat).
    repeat apply conj; trivial; vm_compute; reflexivity.
  - exact (proj1 (proj2 (proj2 (proj2 (proj2 (proj2
             (proj2 (proj2 simulator_follows_recurrence)))))))
             8%nat (le_n 8)).
Defined.

(** ** The reference that a payment record holds *)

Lemma byte_of_value (z : Z) : Z.of_N (Byte.to_N (byte_of z)) = (z mod 256)%Z.
Proof.
  unfold byte_of. change 255%Z with (Z.ones 8). rewrite Z.land_ones by lia.
  change (2 ^ 8)%Z with 256%Z.
  pose proof (Z.mod_pos_bound z 256 ltac:(lia)) as Hb.
  destruct (Byte.of_N (Z.to_N (z mod 256))) as [b|] eqn:E.
  - apply Byte.to_of_N in E. rewrite E. lia.
  - apply Byte.of_N_None_iff in E. lia.
Qed.

Lemma le_value_bytes (z : Z) (n k : nat) :
  le_value (map (fun i => byte_of (Z.shiftr z (8 * Z.of_nat i))) (seq k n))
  = ((z / 2 ^ (8 * Z.of_nat k)) mod 2 ^ (8 * Z.of_nat n))%Z.
Proof.
  revert k. induction n as [|n IH]; intro k.
  - cbn. now rewrite Z.mod_1_r.
  - cbn [seq map le_value]. rewrite byte_of_value, IH.
    rewrite Z.shiftr_div_pow2 by lia.
    replace (8 * Z.of_nat (S k))%Z with (8 * Z.of_nat k + 8)%Z by lia.
    replace (8 * Z.of_nat (S n))%Z with (8 + 8 * Z.of_nat n)%Z by lia.
    rewrite !Z.pow_add_r by lia. change (2 ^ 8)%Z with 256%Z.
    rewrite <- Z.div_div by lia.
    now rewrite Z.rem_mul_r by lia.
Qed.

Lemma le_value_int64_le (z : Z) :
  (0 <= z < 2 ^ 64)%Z -> le_value (int64_le z) = z.
Proof.
  intro Hz. unfold int64_le. rewrite le_value_bytes.
  change (2 ^ (8 * Z.of_nat 0))%Z with 1%Z.
  change (2 ^ (8 * Z.of_nat 8))%Z with (2 ^ 64)%Z.
  rewrite Z.div_1_r. now apply Z.mod_small.
Qed.

Lemma int64_le_rowid_eqb (a b : Z) :
  rowid_in_range a -> rowid_in_range b ->
  sql_value_eqb (SqlBlob (int64_le a)) (SqlBlob (int64_le b)) = Z.eqb a b.
Proof.
  unfold rowid_in_range. intros Ha Hb. cbn [sql_value_eqb].
  destruct (list_eq_dec Byte.byte_eq_dec (int64_le a) (int64_le b)) as [E|E].
  - apply (f_equal le_value) in E.
    rewrite !le_value_int64_le in E by lia. symmetry. now apply Z.eqb_eq.
  - symmetry. apply Z.eqb_neq. intros ->. now apply E.
Qed.

(** ** The payment log under sequences of payment attempts *)

Lemma update_amount_owed_ids_b64 (n : float) (sel : string)
  (ds : list B64.Debt) :
  map B64.debt_id (B64.update_amount_owed n sel ds) = map B64.debt_id ds.
Proof.
  unfold B64.update_amount_owed. rewrite map_map. apply map_ext.
  intro d. now destruct (String.eqb (B64.creditor d) sel).
Qed.

Lemma selected_debt_details_in (s : B64.Store) (sel : string) (d : B64.Debt) :
  B64.selected_debt_details s sel = Some d ->
  In d (B64.debts s) /\ B64.creditor d = sel.
Proof.
  intro H. apply find_some in H. destruct H as [Hin Heq].
  split; [exact Hin | now apply String.eqb_eq].
Qed.

Lemma attempt_debt_ids (s : B64.Store) (r : B64.payment_request) :
  map B64.debt_id (B64.debts (snd (B64.attempt s r)))
  = map B64.debt_id (B64.debts s).
Proof.
  unfold B64.attempt, B64.apply_additional_payment.
  destruct (B64.selected_debt_details s (B64.req_creditor r)) as [d|];
    [|reflexivity].
  destruct (0 <? B64.req_amount r); [|reflexivity]. cbv zeta.
  destruct (_ <? 0); [reflexivity|].
  cbn [snd B64.debts]. apply update_amount_owed_ids_b64.
Qed.

(** What one attempt adds to the amounts recorded, and to those recorded
    under a given value of the column [debt_id]. *)

Lemma recorded_amounts_attempt (s : B64.Store) (r : B64.payment_request) :
  B64.recorded_amounts (B64.debt_payments (snd (B64.attempt s r)))
  = B64.recorded_amounts (B64.debt_payments s)
    ++ (if B64.accepted (fst (B64.attempt s r))
        then [B64.req_amount r] else []).
Proof.
  unfold B64.attempt, B64.apply_additional_payment, B64.recorded_amounts.
  destruct (B64.selected_debt_details s (B64.req_creditor r)) as [d|];
    [|cbn; now rewrite app_nil_r].
  destruct (0 <? B64.req_amount r); [|cbn; now rewrite app_nil_r]. cbv zeta.
  destruct (_ <? 0); [cbn; now rewrite app_nil_r|].
  cbn [fst snd B64.accepted B64.debt_payments]. unfold B64.insert_debt_payment.
  now rewrite map_app.
Qed.

Lemma recorded_amounts_where_attempt (v : sql_value) (s : B64.Store)
  (r : B64.payment_request) :
  B64.recorded_amounts_where v (B64.debt_payments (snd (B64.attempt s r)))
  = B64.recorded_amounts_where v (B64.debt_payments s)
    ++ (if B64.accepted (fst (B64.attempt s r))
           && match B64.selected_debt_details s (B64.req_creditor r) with
              | Some d => sql_value_eqb (SqlBlob (int64_le (B64.debt_id d))) v
              | None => false
              end
        then [B64.req_amount r] else []).
Proof.
  unfold B64.attempt, B64.apply_additional_payment, B64.recorded_amounts_where.
  destruct (B64.selected_debt_details s (B64.req_creditor r)) as [d|];
    [|cbn; now rewrite app_nil_r].
  destruct (0 <? B64.req_amount r); [|cbn; now rewrite app_nil_r]. cbv zeta.
  destruct (_ <? 0); [cbn; now rewrite app_nil_r|].
  cbn [fst snd B64.accepted B64.debt_payments andb].
  unfold B64.insert_debt_payment. rewrite filter_app, map_app.
  cbn [filter B64.payment_debt_id].
  now destruct (sql_value_eqb (SqlBlob (int64_le (B64.debt_id d))) v).
Qed.

Lemma recorded_amounts_apply_payments (rs : list B64.payment_request) :
  forall s : B64.Store,
    B64.recorded_amounts (B64.debt_payments (B64.apply_payments s rs))
    = B64.recorded_amounts (B64.debt_payments s) ++ B64.gross_amounts_paid s rs.
Proof.
  induction rs as [|r rs IH]; intro s.
  - cbn. now rewrite app_nil_r.
  - cbn [B64.apply_payments B64.gross_amounts_paid].
    now rewrite IH, recorded_amounts_attempt, app_assoc.
Qed.

Lemma recorded_amounts_of_debt (z : Z) (rs : list B64.payment_request) :
  rowid_in_range z ->
  forall s : B64.Store,
    Forall rowid_in_range (map B64.debt_id (B64.debts s)) ->
    B64.recorded_amounts_where (SqlBlob (int64_le z))
      (B64.debt_payments (B64.apply_payments s rs))
    = B64.recorded_amounts_where (SqlBlob (int64_le z)) (B64.debt_payments s)
      ++ B64.gross_amounts_paid_on z s rs.
Proof.
  intro Hz. induction rs as [|r rs IH]; intros s Hids.
  - cbn. now rewrite app_nil_r.
  - cbn [B64.apply_payments B64.gross_amounts_paid_on].
    rewrite IH by (now rewrite attempt_debt_ids).
    rewrite recorded_amounts_where_attempt, <- app_assoc.
    unfold B64.on_debt.
    destruct (B64.selected_debt_details s (B64.req_creditor r)) as [d|] eqn:Ed;
      [|reflexivity].
    rewrite int64_le_rowid_eqb; [reflexivity | | exact Hz].
    rewrite Forall_forall in Hids. apply Hids. apply in_map.
    now apply (selected_debt_details_in s (B64.req_creditor r)).
Qed.


(** X24.  What the record refers to.  The table is declared with
    [debt_id INTEGER] and [FOREIGN KEY (debt_id) REFERENCES debts (id)]
    (lines 58-63).  The payment of 50 on the debt with id 1 is accepted
    and adds one record of 50, whose column [debt_id] holds the eight
    bytes of the id, not the integer 1: the recorded amounts with
    [debt_id = 1] are none, those under the bytes are the 50 paid.  No
    sequence of payment attempts adds a record under an integer. *)


(** C6.  An applied payment appends exactly one record to the payment
    log: a fresh record id, the gross amount P that was entered (not its
    principal part), the date, and for the debt the eight bytes of the
    id of the selected row, which is what the program stores in
    [debt_id]; a refused payment appends nothing.  So for every sequence
    of payment attempts from any store the amounts recorded are, in
    order, the amounts recorded before followed by the gross amounts of
    the accepted payments, and the amounts recorded for one debt are
    those recorded for it before followed by the gross amounts of the
    accepted payments on it.  Whatever way of adding up is used, the sum
    of the amounts recorded for a debt with no earlier record is the sum
    of the gross amounts paid on it; the split of a payment into
    interest and principal does not enter. *)

Theorem payment_log_stores_gross_amounts :
  (forall (today : string) (s s' : B64.Store) (sel : string)
          (P i pp n : float),
      B64.apply_additional_payment today s sel P
      = (B64.PaymentApplied i pp n, s') ->
      exists d,
        B64.selected_debt_details s sel = Some d
        /\ B64.debt_payments s'
           = B64.debt_payments s
             ++ [B64.mkDebtPayment
                   (next_rowid (map B64.payment_id (B64.debt_payments s)))
                   (SqlBlob (int64_le (B64.debt_id d))) P today])
  /\ (forall (today : string) (s : B64.Store) (sel : string) (P : float),
        B64.accepted (fst (B64.apply_additional_payment today s sel P)) = false ->
        B64.debt_payments (snd (B64.apply_additional_payment today s sel P))
        = B64.debt_payments s)
  /\ (forall (s : B64.Store) (rs : list B64.payment_request),
        B64.recorded_amounts (B64.debt_payments (B64.apply_payments s rs))
        = B64.recorded_amounts (B64.debt_payments s)
          ++ B64.gross_amounts_paid s rs)
  /\ (forall (s : B64.Store) (rs : list B64.payment_request) (z : Z),
        rowid_in_range z ->
        Forall rowid_in_range (map B64.debt_id (B64.debts s)) ->
        B64.recorded_amounts_where (SqlBlob (int64_le z))
          (B64.debt_payments (B64.apply_payments s rs))
        = B64.recorded_amounts_where (SqlBlob (int64_le z))
            (B64.debt_payments s)
          ++ B64.gross_amounts_paid_on z s rs)
  /\ (forall (sum : list float -> float) (s : B64.Store)
             (rs : list B64.payment_request) (z : Z),
        rowid_in_range z ->
        Forall rowid_in_range (map B64.debt_id (B64.debts s)) ->
        B64.recorded_amounts_where (SqlBlob (int64_le z)) (B64.debt_payments s)
        = [] ->
        sum (B64.recorded_amounts_where (SqlBlob (int64_le z))
               (B64.debt_payments (B64.apply_payments s rs)))
        = sum (B64.gross_amounts_paid_on z s rs)).
Proof.
  split; [|split; [|split; [|split]]].
  - intros today s s' sel P i pp n E.
    destruct (apply_additional_payment_applied_b64 _ _ _ _ _ _ _ _ E)
      as (d & Hd & _ & _ & _ & _ & _ & Hs).
    exists d. split; [exact Hd|]. now rewrite Hs.
  - intros today s sel P H.
    now rewrite (apply_additional_payment_refused_b64 today s sel P H).
  - intros s rs. apply recorded_amounts_apply_payments.
  - intros s rs z Hz Hids. now apply recorded_amounts_of_debt.
  - intros sum s rs z Hz Hids Hnone.
    now rewrite (recorded_amounts_of_debt z rs Hz s Hids), Hnone.
Qed.

(** Three attempts on the debt of 500 at 24%: 50 is applied, 5 is
    refused (the interest on 460 is 9.2), 30 is applied. *)

Lemma payment_log_stores_gross_amounts_witness :
  let rs := [B64.mkRequest "Card" 50 "2026-01-15";
             B64.mkRequest "Card" 5 "2026-01-16";
             B64.mkRequest "Card" 30 "2026-01-17"] in
  (rowid_in_range 1
   /\ Forall rowid_in_range (map B64.debt_id (B64.debts B64.card_500)))
  /\ B64.gross_amounts_paid_on 1 B64.card_500 rs = [50; 30]
  /\ B64.recorded_amounts_where (SqlBlob (int64_le 1))
       (B64.debt_payments (B64.apply_payments B64.card_500 rs))
     = [50; 30]
  /\ exists d,
       B64.selected_debt_details B64.card_500 "Card" = Some d
       /\ B64.debt_payments
            (snd (B64.apply_additional_payment "2026-01-15" B64.card_500
                    "Card" 50))
          = B64.debt_payments B64.card_500
            ++ [B64.mkDebtPayment
                  (next_rowid
                     (map B64.payment_id (B64.debt_payments B64.card_500)))
                  (SqlBlob (int64_le (B64.debt_id d))) 50 "2026-01-15"].
Proof.
  intro rs.
  assert (H1 : rowid_in_range 1) by (unfold rowid_in_range; lia).
  assert (Hids : Forall rowid_in_range
                   (map B64.debt_id (B64.debts B64.card_500)))
    by (repeat constructor; unfold rowid_in_range; cbn; lia).
  split; [now split|]. split; [vm_compute; reflexivity|]. split.
  - rewrite (proj1 (proj2 (proj2 (proj2 payment_log_stores_gross_amounts)))
               B64.card_500 rs 1%Z H1 Hids).
    vm_compute. reflexivity.
  - exact (proj1 payment_log_stores_gross_amounts "2026-01-15" B64.card_500
             _ "Card" 50 _ _ _ eq_refl).
Defined.

(** ** The effects of an applied payment *)

Lemma update_amount_owed_rows (n : float) (sel : string) (ds : list B64.Debt) :
  Forall2 (fun x x' =>
             B64.debt_id x' = B64.debt_id x
             /\ B64.creditor x' = B64.creditor x
             /\ B64.interest_rate x' = B64.interest_rate x
             /\ B64.min_payment x' = B64.min_payment x
             /\ B64.amount_owed x'
                = if String.eqb (B64.creditor x) sel
                  then n else B64.amount_owed x)
          ds (B64.update_amount_owed n sel ds).
Proof.
  induction ds as [|x ds IH]; cbn; constructor; [|exact IH].
  destruct (String.eqb (B64.creditor x) sel); repeat split.
Qed.

Lemma update_amount_owed_one_row_b64 (n : float) (sel : string)
  (ds : list B64.Debt) (d0 : B64.Debt) :
  NoDup (map B64.creditor ds) ->
  find (fun x => String.eqb (B64.creditor x) sel) ds = Some d0 ->
  exists l1 l2,
    ds = l1 ++ d0 :: l2
    /\ B64.update_amount_owed n sel ds = l1 ++ B64.set_amount_owed n d0 :: l2.
Proof.
  induction ds as [|x ds IH]; intros Hnd Hf; [discriminate|].
  cbn in Hnd, Hf. inversion Hnd as [|? ? Hnot Hnd']; subst.
  destruct (String.eqb (B64.creditor x) sel) eqn:E.
  - injection Hf as <-. exists [], ds. split; [reflexivity|].
    cbn. rewrite E. f_equal.
    apply String.eqb_eq in E.
    unfold B64.update_amount_owed. rewrite <- (map_id ds) at 2.
    apply map_ext_in. intros y Hy.
    destruct (String.eqb (B64.creditor y) sel) eqn:Ey; [|reflexivity].
    exfalso. apply Hnot. apply String.eqb_eq in Ey.
    rewrite E, <- Ey. now apply in_map.
  - destruct (IH Hnd' Hf) as (l1 & l2 & -> & Hu).
    exists (x :: l1), l2. split; [reflexivity|].
    cbn. rewrite E. f_equal. exact Hu.
Qed.

Lemma two_bank_debts_reachable_b64 : B64.reachable B64.two_bank_debts.
Proof.
  apply (B64.reachable_step
           (B64.add_debt "Bank" 1000 0 500 B64.initialize_db) _ 0 "2026-01-15"
           (B64.OnDebtPage (B64.SubmitDebtForm "Bank" 100 0 50))).
  - apply (B64.reachable_step B64.initialize_db _ 0 "2026-01-15"
             (B64.OnDebtPage (B64.SubmitDebtForm "Bank" 1000 0 500))
             B64.reachable_init).
    + repeat apply conj; reflexivity.
    + reflexivity.
  - repeat apply conj; reflexivity.
  - reflexivity.
Qed.

(** C9 as stated fails where two debts share a name.  In the reachable
    store with two debts named "Bank", owing 1000 (id 1) and 100 (id 2),
    the payment of 10 is applied to the first: interest 0, principal 10,
    new balance 990.  The update goes by creditor name, so the row with id 2, a
    different debt, is rewritten as well, from 100 to 990.  (The record
    added to the log holds the eight bytes of the id 1 in [debt_id].) *)

Lemma payment_changes_a_second_debt :
  let s := B64.two_bank_debts in
  let s' := snd (B64.apply_additional_payment "2026-01-15" s "Bank" 10) in
  B64.reachable s
  /\ B64.debts s = [B64.mkDebt 1 "Bank" 1000 0 500; B64.mkDebt 2 "Bank" 100 0 50]
  /\ B64.selected_debt_details s "Bank" = Some (B64.mkDebt 1 "Bank" 1000 0 500)
  /\ fst (B64.apply_additional_payment "2026-01-15" s "Bank" 10)
     = B64.PaymentApplied 0 10 990
  /\ B64.debts s'
     = [B64.mkDebt 1 "Bank" 990 0 500; B64.mkDebt 2 "Bank" 990 0 50]
  /\ B64.debt_payments s'
     = [B64.mkDebtPayment 1
          (SqlBlob [Byte.x01; Byte.x00; Byte.x00; Byte.x00;
                    Byte.x00; Byte.x00; Byte.x00; Byte.x00])
          10 "2026-01-15"].
Proof.
  cbv zeta. split; [exact two_bank_debts_reachable_b64|].
  repeat match goal with |- _ /\ _ => split end; vm_compute; reflexivity.
Qed.

(** C9, amended.  An applied payment of P has these effects and no
    other.  Every debt row keeps its place, id, creditor, interest rate
    and minimum payment; its amount owed becomes the new balance if its
    creditor name is the selected one and is unchanged otherwise, so
    with pairwise distinct creditor names exactly the selected row
    changes.  One record is appended to the payment log: a fresh record
    id, the eight bytes of the selected row's id, the amount P and the
    current date.  The savings row has saved_amount - P for saved
    amount, and the goal and the monthly savings it had.  A payment that
    is not applied leaves the store as it was. *)

Theorem applied_payment_effects :
  (forall (today : string) (s s' : B64.Store) (sel : string)
          (P i pp n : float),
      B64.apply_additional_payment today s sel P
      = (B64.PaymentApplied i pp n, s') ->
      exists d,
        B64.selected_debt_details s sel = Some d
        /\ n = B64.amount_owed d
               - (P - B64.amount_owed d
                      * B64.monthly_interest_rate (B64.interest_rate d))
        /\ Forall2 (fun x x' =>
                      B64.debt_id x' = B64.debt_id x
                      /\ B64.creditor x' = B64.creditor x
                      /\ B64.interest_rate x' = B64.interest_rate x
                      /\ B64.min_payment x' = B64.min_payment x
                      /\ B64.amount_owed x'
                         = if String.eqb (B64.creditor x) sel
                           then n else B64.amount_owed x)
                   (B64.debts s) (B64.debts s')
        /\ (B64.creditors_unique s ->
            exists l1 l2,
              B64.debts s = l1 ++ d :: l2
              /\ B64.debts s' = l1 ++ B64.set_amount_owed n d :: l2)
        /\ B64.debt_payments s'
           = B64.debt_payments s
             ++ [B64.mkDebtPayment
                   (next_rowid (map B64.payment_id (B64.debt_payments s)))
                   (SqlBlob (int64_le (B64.debt_id d))) P today]
        /\ B64.savings s'
           = B64.mkSavings (B64.saved_amount (B64.savings s) - P)
                           (B64.goal_amount (B64.savings s))
                           (B64.monthly_savings (B64.savings s)))
  /\ (forall (today : string) (s : B64.Store) (sel : string) (P : float),
        B64.accepted (fst (B64.apply_additional_payment today s sel P)) = false ->
        snd (B64.apply_additional_payment today s sel P) = s).
Proof.
  split.
  - intros today s s' sel P i pp n E.
    destruct (apply_additional_payment_applied_b64 _ _ _ _ _ _ _ _ E)
      as (d & Hd & _ & Hi & Hpp & _ & Hn & Hs).
    exists d. rewrite Hs. cbn [B64.debts B64.debt_payments B64.savings].
    split; [exact Hd|]. split; [now rewrite Hn, Hpp, Hi|].
    split; [apply update_amount_owed_rows|].
    split; [|split; reflexivity].
    intro Hu. now apply update_amount_owed_one_row_b64.
  - intros today s sel P. apply apply_additional_payment_refused_b64.
Qed.

Lemma applied_payment_effects_witness :
  exists d s',
    B64.apply_additional_payment "2026-01-15" B64.card_500 "Card" 50
    = (B64.PaymentApplied 10 40 460, s')
    /\ B64.selected_debt_details B64.card_500 "Card" = Some d
    /\ B64.creditors_unique B64.card_500
    /\ (exists l1 l2,
          B64.debts B64.card_500 = l1 ++ d :: l2
          /\ B64.debts s' = l1 ++ B64.set_amount_owed 460 d :: l2)
    /\ B64.debt_payments s'
       = B64.debt_payments B64.card_500
         ++ [B64.mkDebtPayment
               (next_rowid
                  (map B64.payment_id (B64.debt_payments B64.card_500)))
               (SqlBlob (int64_le (B64.debt_id d))) 50 "2026-01-15"]
    /\ B64.savings s'
       = B64.mkSavings (B64.saved_amount (B64.savings B64.card_500) - 50)
                       (B64.goal_amount (B64.savings B64.card_500))
                       (B64.monthly_savings (B64.savings B64.card_500)).
Proof.
  assert (Hu : B64.creditors_unique B64.card_500)
    by (unfold B64.creditors_unique; cbn; repeat constructor; intros []).
  destruct (proj1 applied_payment_effects "2026-01-15" B64.card_500 _ "Card"
              50 10 40 460 eq_refl)
    as (d & Hd & _ & _ & Hone & Hlog & Hsav).
  exists d. eexists. split; [reflexivity|]. split; [exact Hd|].
  split; [exact Hu|]. split; [exact (Hone Hu)|]. split; [exact Hlog|].
  exact Hsav.
Defined.

(** ** A second payment *)

(** X8.  Each payment is charged the interest of a whole period on the
    balance it finds, whatever the dates.  After a payment has been
    applied and has left the balance n1, a second positive payment P2 on
    the same creditor name is measured against n1 * r: it is refused
    when P2 - n1 * r is negative and otherwise applied with interest
    n1 * r, and the log then holds two records more than at the start. *)

Theorem second_payment_pays_interest_again
  (day1 day2 : string) (s s1 : B64.Store) (sel : string)
  (P1 P2 i1 pp1 n1 : float) :
  B64.apply_additional_payment day1 s sel P1
  = (B64.PaymentApplied i1 pp1 n1, s1) ->
  (0 <? P2) = true ->
  exists d,
    B64.selected_debt_details s sel = Some d
    /\ B64.selected_debt_details s1 sel = Some (B64.set_amount_owed n1 d)
    /\ let r := B64.monthly_interest_rate (B64.interest_rate d) in
       if P2 - n1 * r <? 0
       then B64.apply_additional_payment day2 s1 sel P2
            = (B64.InsufficientPayment, s1)
       else fst (B64.apply_additional_payment day2 s1 sel P2)
            = B64.PaymentApplied (n1 * r) (P2 - n1 * r) (n1 - (P2 - n1 * r))
            /\ List.length
                 (B64.debt_payments
                    (snd (B64.apply_additional_payment day2 s1 sel P2)))
               = S (S (List.length (B64.debt_payments s))).
Proof.
  intros E HP2.
  destruct (apply_additional_payment_applied_b64 _ _ _ _ _ _ _ _ E)
    as (d & Hd & _ & _ & _ & _ & _ & Hs).
  exists d. split; [exact Hd|].
  assert (Hd1 : B64.selected_debt_details s1 sel
                = Some (B64.set_amount_owed n1 d))
    by (rewrite Hs; now apply selected_after_update_b64).
  split; [exact Hd1|]. cbv zeta.
  unfold B64.apply_additional_payment at 1 2 3. rewrite Hd1, HP2. cbv zeta.
  cbn [B64.set_amount_owed B64.amount_owed B64.interest_rate B64.debt_id].
  destruct (_ <? 0); [reflexivity|].
  split; [reflexivity|]. cbn [snd B64.debt_payments].
  rewrite Hs. cbn [B64.debt_payments]. unfold B64.insert_debt_payment.
  rewrite !length_app. cbn. lia.
Qed.

Lemma second_payment_pays_interest_again_witness :
  exists s1 d,
    B64.apply_additional_payment "2026-01-15" B64.card_500 "Card" 50
    = (B64.PaymentApplied 10 40 460, s1)
    /\ (0 <? 50) = true
    /\ B64.selected_debt_details s1 "Card" = Some (B64.set_amount_owed 460 d)
    /\ fst (B64.apply_additional_payment "2026-01-15" s1 "Card" 50)
       = B64.PaymentApplied (460 * B64.monthly_interest_rate 24)
           (50 - 460 * B64.monthly_interest_rate 24)
           (460 - (50 - 460 * B64.monthly_interest_rate 24)).
Proof.
  eexists.
  destruct (second_payment_pays_interest_again "2026-01-15" "2026-01-15"
              B64.card_500 _ "Card" 50 50 10 40 460 eq_refl eq_refl)
    as (d & Hd & Hd1 & H2).
  exists d. split; [reflexivity|]. split; [reflexivity|].
  split; [exact Hd1|].
  injection Hd as <-. exact (proj1 H2).
Defined.

(** ** Payments at the boundary and beyond the balance *)

(** X7.  The test of line 386 goes by the interest as computed.  On the
    debt of 1000 at 24% the computed interest is exactly 20 and a payment of
    20 is applied with principal 0: the balance stays 1000, one record
    of 20 is logged and the savings go from 0 to -20.  On the debt of
    100 at 21% the payment 0x1.bffffffffffffp+0 (1.7499999999999998) is
    below 100 * 21/100/12 = 1.75 and is applied all the same, the
    computed interest being 1.7499999999999998 as well.  The same with
    amounts of two decimals: on the debt of 38 at 18% the interest is
    0.57; the payment entered as 0.57 is the float 0x1.23d70a3d70a3dp-1,
    which is below it, and is applied, the computed interest being that
    float. *)

Lemma payment_at_computed_interest_is_applied :
  (let s' := snd (B64.apply_additional_payment "2026-01-15" B64.card_1000
                    "Card" 20) in
   1000 * B64.monthly_interest_rate 24 = 20
   /\ fst (B64.apply_additional_payment "2026-01-15" B64.card_1000 "Card" 20)
      = B64.PaymentApplied 20 0 1000
   /\ B64.debt_payments s'
      = [B64.mkDebtPayment 1 (SqlBlob (int64_le 1)) 20 "2026-01-15"]
   /\ B64.saved_amount (B64.savings s') = -20)
  /\ (let s := B64.add_debt "Card" 100 21 100 B64.initialize_db in
      let P := 0x1.bffffffffffffp+0 in
      (exists p, F2Q P = Some p /\ (p < 100 * (21 / 100 / 12))%Q)
      /\ fst (B64.apply_additional_payment "2026-01-15" s "Card" P)
         = B64.PaymentApplied P 0 100)
  /\ (let s := B64.add_debt "Card" 38 18 100 B64.initialize_db in
      let P := 0x1.23d70a3d70a3dp-1 in
      (exists p, F2Q P = Some p /\ (p < 38 * (18 / 100 / 12))%Q)
      /\ fst (B64.apply_additional_payment "2026-01-15" s "Card" P)
         = B64.PaymentApplied P 0 38).
Proof.
  split; [|split]; cbv zeta.
  - repeat match goal with |- _ /\ _ => split end; vm_compute; reflexivity.
  - split; [|vm_compute; reflexivity].
    eexists. split; vm_compute; reflexivity.
  - split; [|vm_compute; reflexivity].
    eexists. split; vm_compute; reflexivity.
Qed.


(** X4.  The new balance is not clamped at zero.  On the debt of 500 at
    24% a page run with a payment of 600 applies it (interest 10,
    principal 590) and the debt then owes -90 in a reachable store; the
    calculator shows it as paid off in 0 months from then on. *)


(** X23.  The months reported: none exactly when the balance is not
    positive to begin with, and fewer than the loop tests made. *)

Theorem payoff_months_zero_exactly_when_nothing_owed
  (fuel : nat) (a ir mp : float) (m : nat) (t : float) :
  B64.payoff_calculator fuel a ir mp = Some (B64.PaidOff m t) ->
  (m = 0%nat <-> (0 <? a) = false) /\ (m < fuel)%nat.
Proof.
  unfold B64.payoff_calculator. destruct (0 <? mp); [|discriminate].
  destruct (B64.while_loop fuel (B64.monthly_interest_rate ir) mp
              (B64.initial a)) as [st|] eqn:E; [|discriminate].
  intros [= <- <-]. apply while_loop_result_iff_b64 in E.
  destruct E as (Hfuel & Hend & Hbefore & _). split; [|exact Hfuel]. split.
  - intro H0. now rewrite H0 in Hend.
  - intro Ha. destruct (B64.months st) as [|k]; [reflexivity|].
    specialize (Hbefore 0%nat ltac:(lia)). cbn in Hbefore. congruence.
Qed.

Lemma payoff_months_zero_exactly_when_nothing_owed_witness :
  B64.payoff_calculator 8 1200 12 200
  = Some (B64.PaidOff 7 0x1.5ed7d1ac48153p+5)
  /\ (7%nat = 0%nat <-> (0 <? 1200) = false) /\ (7 < 8)%nat.
Proof.
  split; [vm_compute; reflexivity|].
  exact (payoff_months_zero_exactly_when_nothing_owed 8 1200 12 200 7
           0x1.5ed7d1ac48153p+5 eq_refl).
Defined.

(** X3.  Without interest the months are counted on the rounded balance.
    A debt of 0.5 paid at 0x1.999999999999ap-4 (the float 0.1) a month
    owes 2^-55 after five payments, which is positive: the calculator
    reports 6 months, where the division 0.5 / 0.1 of exact arithmetic
    gives 5. *)

Theorem payoff_months_count_rounded_balance :
  let mp := 0x1.999999999999ap-4 in
  B64.balance_after 0.5 (B64.monthly_interest_rate 0) mp 5 = 0x1p-55
  /\ B64.payoff_calculator 7 0.5 0 mp = Some (B64.PaidOff 6 0)
  /\ B64.payoff_calculator 6 0.5 0 mp = None
  /\ exists t,
       Payoff.payoff_calculator 7 (1 # 2) 0 (1 # 10)
       = Some (Payoff.PaidOff 5 t)
       /\ (t == 0)%Q.
Proof.
  cbv zeta. split; [vm_compute; reflexivity|].
  split; [vm_compute; reflexivity|]. split; [vm_compute; reflexivity|].
  eexists. split; vm_compute; reflexivity.
Qed.

End B64Facts.
